(** * Routine dashboard: persistence, reconciliation and view derivation

    A shallow embedding of [dashboard/src/app/page.tsx]: the values that
    [JSON.parse] hands to the loader, the merge of a stored snapshot onto the
    compiled-in catalog, the loader with its [try]/[catch], the writer
    effect, the toggle, and the derived figures of the summary panel. *)

From Stdlib Require Import ZArith Lia Ascii DecimalString SpecFloat.
From stdpp Require Import base option list sorting gmap strings.

(** ** JavaScript values *)

(** A JS number is an IEEE 754 binary64 value. *)
Definition number : Type := spec_float.

Definition prec : Z := 53.
Definition emax : Z := 1024.

#[global] Instance number_eq_dec : EqDecision number.
Proof. solve_decision. Defined.

(** What [JSON.parse] can return.  An object lists its properties in the
    order of the JSON text; when a key is repeated the last occurrence is the
    property's value, as [JSON.parse] has it.  [undefined] is not a JSON value:
    it only arises from reading an absent property, and is the [None] of
    [Get]. *)
#[warnings="-register-all"]
Inductive value : Type :=
  | VNull
  | VBool (b : bool)
  | VNum (n : number)
  | VStr (s : string)
  | VArr (items : list value)
  | VObj (props : list (string * value)).

(** Exceptions the modelled code can meet, and JS completions: the errors
    of the language, and the [DOMException]s of the storage, told apart by
    their name ("SecurityError", "QuotaExceededError"). *)
Inductive exn : Type :=
  | SyntaxError
  | TypeError
  | DOMException (name : string).

Inductive completion (A : Type) : Type :=
  | Normal (a : A)
  | Throw (e : exn).
Arguments Normal {A} a.
Arguments Throw {A} e.

#[global] Instance completion_ret : MRet completion := λ A a, Normal a.
#[global] Instance completion_bind : MBind completion := λ A B f m,
  match m with Normal a => f a | Throw e => Throw e end.

(** Built-ins of the host that the program calls and that are not part of
    its source. [JSON_parse] answers [None] when [JSON.parse] throws its
    [SyntaxError].  An engine running out of stack or memory is not
    modelled. *)
Class Platform : Type := {
  JSON_parse : string → option value;
  JSON_stringify : value → string;
  Number_toString : number → string;
}.

(** Own property of an object, last occurrence of the key. *)
Fixpoint own_property (k : string) (props : list (string * value)) : option value :=
  match props with
  | [] => None
  | (k', v) :: rest =>
      match own_property k rest with
      | Some w => Some w
      | None => if String.eqb k k' then Some v else None
      end
  end.

(** [v[k]] for a non-null [v], [None] being [undefined]: arrays and
    primitives have none of the properties this program reads ("id",
    "completed", "tasks", "hydrated"), and neither do [Object.prototype] and
    [Array.prototype], so that [k in v] is [Get v k] being defined. *)
Definition Get (v : value) (k : string) : option value :=
  match v with
  | VObj props => own_property k props
  | _ => None
  end.

Definition typeof (v : value) : string :=
  match v with
  | VNull => "object"
  | VBool _ => "boolean"
  | VNum _ => "number"
  | VStr _ => "string"
  | VArr _ => "object"
  | VObj _ => "object"
  end.

Definition Array_isArray (v : value) : bool :=
  match v with VArr _ => true | _ => false end.

(** [Boolean(v)], the truthiness of a value. *)
Definition ToBoolean (v : value) : bool :=
  match v with
  | VNull => false
  | VBool b => b
  | VNum (S754_zero _) => false
  | VNum S754_nan => false
  | VNum _ => true
  | VStr s => negb (String.eqb s "")
  | VArr _ => true
  | VObj _ => true
  end.

(** [Boolean(o.k)] where the property may be absent ([undefined] is falsy). *)
Definition Boolean (o : option value) : bool :=
  match o with Some v => ToBoolean v | None => false end.

Section WithPlatform.
Context `{Platform}.

(** [String(v)].  An array is joined with commas, [null] elements printing as
    the empty string.  An ordinary object prints through
    [Object.prototype.toString] unless an own "toString" property shadows it:
    a JSON value is never callable, and [Object.prototype.valueOf] returns
    the object itself, so the conversion then ends in a [TypeError]. *)
Fixpoint ToString (v : value) : completion string :=
  match v with
  | VNull => Normal "null"
  | VBool true => Normal "true"
  | VBool false => Normal "false"
  | VNum n => Normal (Number_toString n)
  | VStr s => Normal s
  | VArr items =>
      (fix join (l : list value) : completion string :=
         match l with
         | [] => Normal ""
         | x :: rest =>
             s ← match x with VNull => Normal "" | _ => ToString x end;
             match rest with
             | [] => Normal s
             | _ => r ← join rest; Normal (s +:+ "," +:+ r)
             end
         end) items
  | VObj props =>
      match own_property "toString" props with
      | Some _ => Throw TypeError
      | None => Normal "[object Object]"
      end
  end.

(** ** Tasks and the compiled-in catalog *)

Inductive Block : Type := Morning | Midday | Afternoon | Evening.

Record RoutineTask : Type := mkTask {
  id : string;
  title : string;
  time : string;
  block : Block;
  details : string;
  completed : bool;
}.

Record RoutineState : Type := mkState {
  tasks : list RoutineTask;
  hydrated : bool;
}.

Definition STORAGE_KEY : string := "minimal-routine-dashboard".

Definition defaultTasks : list RoutineTask := [
  mkTask "hydrate" "Hydrate and stretch" "06:30" Morning
         "500ml water + 5 minute mobility routine" false;
  mkTask "plan" "Plan the day" "07:15" Morning
         "Review calendar and set top 3 priorities" false;
  mkTask "deep-work" "Deep work sprint" "09:00" Midday
         "90 minute focus block with notifications silenced" false;
  mkTask "movement" "Movement break" "12:30" Midday
         "20 minute walk and light stretching" false;
  mkTask "check-in" "Quick inbox sweep" "15:00" Afternoon
         "Respond to priority messages only" false;
  mkTask "wrap-up" "Daily review" "17:30" Afternoon
         "Log progress and queue tasks for tomorrow" false;
  mkTask "unwind" "Unwind routine" "20:30" Evening
         "Digital sunset, 30 minutes reading" false
].

(** [{ ...task, completed: c }] *)
Definition with_completed (task : RoutineTask) (c : bool) : RoutineTask :=
  mkTask (id task) (title task) (time task) (block task) (details task) c.

Definition createFallbackState : RoutineState :=
  mkState ((λ task, task) <$> defaultTasks) false.

(** ** The reconciler *)

(** [new Map(entries)]: entries are set in order, a later one replacing an
    earlier one with the same key. *)
Definition Map_new (entries : list (string * value)) : gmap string value :=
  foldl (λ m kv, <[kv.1 := kv.2]> m) ∅ entries.

(** The callback of [storedTasks.map]: the pair kept for an item, [None]
    for the [null] that [.filter(Boolean)] removes afterwards. *)
Definition stored_entry (item : value) : completion (option (string * value)) :=
  if ToBoolean item && String.eqb (typeof item) "object" then
    match Get item "id" with
    | Some item_id => key ← ToString item_id; Normal (Some (key, item))
    | None => Normal None
    end
  else Normal None.

(** The callback of [defaultTasks.map]. *)
Definition merge_task (storedById : gmap string value) (task : RoutineTask)
  : RoutineTask :=
  match storedById !! id task with
  | Some candidate =>
      if negb (ToBoolean candidate) then task
      else with_completed task (Boolean (Get candidate "completed"))
  | None => task
  end.

Definition mergeTaskState (storedTasks : value) : completion (list RoutineTask) :=
  match storedTasks with
  | VArr items =>
      entries ← mapM stored_entry items;
      let storedById := Map_new (omap (λ e, e) entries) in
      Normal (merge_task storedById <$> defaultTasks)
  | _ => Normal defaultTasks
  end.

(** Vocabulary for the statements: the key under which the reconciler files
    an item, when the item is an object with an "id" that [String] converts. *)
Definition stored_key (item : value) : option string :=
  match Get item "id" with
  | Some item_id =>
      match ToString item_id with Normal key => Some key | Throw _ => None end
  | None => None
  end.

Definition entry_of (item : value) : option (string * value) :=
  (λ key, (key, item)) <$> stored_key item.

(** The conversion of the item's id, if it has one, raises nothing.  Every
    item without an "id" and every item whose id is a string, a number, a
    boolean or [null] qualifies; an id that is an object with an own
    "toString" property does not. *)
Definition convertible (item : value) : Prop :=
  ∀ item_id, Get item "id" = Some item_id → ∃ key, ToString item_id = Normal key.

(** The item is filed under an id of the catalog. *)
Definition catalog_entry (item : value) : bool :=
  match stored_key item with
  | Some key => bool_decide (key ∈ id <$> defaultTasks)
  | None => false
  end.

(** ** The loader *)

(** Where the page runs: on the server there is no [window]; in a browser
    [window.localStorage] is a store of strings, or, when the browser denies
    the page its storage, an access that throws (a "SecurityError"
    [DOMException] under a blocking policy, a [TypeError] where the property
    is [null]). *)
Inductive host : Type :=
  | Prerender
  | Browser (localStorage : gmap string string)
  | Blocked (error : exn).

Definition console : Type := list (string * exn).

(** The body of the [try] block: [Normal (Some st)] is [return st],
    [Normal None] is reaching the end of the block. *)
Definition try_block (localStorage : gmap string string)
  : completion (option RoutineState) :=
  match localStorage !! STORAGE_KEY with
  | None => Normal (Some createFallbackState)
  | Some stored =>
      if String.eqb stored "" then Normal (Some createFallbackState)
      else
        parsed ← from_option Normal (Throw SyntaxError) (JSON_parse stored);
        if Array_isArray parsed then
          merged ← mergeTaskState parsed;
          Normal (Some (mkState merged false))
        else if ToBoolean parsed && String.eqb (typeof parsed) "object" then
          match Get parsed "tasks" with
          | Some parsed_tasks =>
              if Array_isArray parsed_tasks then
                merged ← mergeTaskState parsed_tasks;
                Normal (Some (mkState merged (Boolean (Get parsed "hydrated"))))
              else Normal None
          | None => Normal None
          end
        else Normal None
  end.

(** The completion of a call of [loadRoutineState] together with what it
    wrote with [console.error]. *)
Definition loadRoutineState (h : host) : completion RoutineState * console :=
  match h with
  | Prerender => (Normal createFallbackState, [])
  | Browser localStorage =>
      match try_block localStorage with
      | Normal (Some st) => (Normal st, [])
      | Normal None => (Normal createFallbackState, [])
      | Throw error =>
          (Normal createFallbackState,
           [("Failed to parse routine from localStorage", error)])
      end
  | Blocked error =>
      (Normal createFallbackState,
       [("Failed to parse routine from localStorage", error)])
  end.

(** Vocabulary for the statements: the host holds a non-empty text in the
    storage slot and [JSON.parse] reads it as [parsed]. *)
Definition stores (h : host) (parsed : value) : Prop :=
  ∃ localStorage stored,
    h = Browser localStorage ∧ localStorage !! STORAGE_KEY = Some stored ∧
    stored ≠ "" ∧ JSON_parse stored = Some parsed.

(** The stored task array of the two snapshot forms the loader accepts: a
    bare array, or an object whose "tasks" is an array. *)
Definition snapshot_items (parsed : value) : option (list value) :=
  match parsed with
  | VArr items => Some items
  | VObj props =>
      match own_property "tasks" props with
      | Some (VArr items) => Some items
      | _ => None
      end
  | _ => None
  end.

(** The inputs of the loader that are not a snapshot: no storage at all, an
    empty slot, a text that is not JSON, or JSON of another shape ([null], a
    number, a string, a boolean, an object whose "tasks" is absent or not an
    array). *)
Inductive malformed : host → Prop :=
  | malformed_prerender : malformed Prerender
  | malformed_missing localStorage :
      localStorage !! STORAGE_KEY = None → malformed (Browser localStorage)
  | malformed_unparsable localStorage stored :
      localStorage !! STORAGE_KEY = Some stored →
      JSON_parse stored = None → malformed (Browser localStorage)
  | malformed_shape localStorage stored parsed :
      localStorage !! STORAGE_KEY = Some stored →
      JSON_parse stored = Some parsed →
      snapshot_items parsed = None → malformed (Browser localStorage).

(** ** The writer *)

Definition Block_name (b : Block) : string :=
  match b with
  | Morning => "Morning"
  | Midday => "Midday"
  | Afternoon => "Afternoon"
  | Evening => "Evening"
  end.

(** The object [{ tasks, hydrated }] that the effect hands to
    [JSON.stringify], its properties in creation order. *)
Definition task_value (task : RoutineTask) : value :=
  VObj [("id", VStr (id task)); ("title", VStr (title task));
        ("time", VStr (time task)); ("block", VStr (Block_name (block task)));
        ("details", VStr (details task)); ("completed", VBool (completed task))].

Definition payload_value (st : RoutineState) : value :=
  VObj [("tasks", VArr (task_value <$> tasks st));
        ("hydrated", VBool (hydrated st))].

(** What the effect that runs after a render in which [tasks] or
    [hydrated] changed leaves behind once its write is done: the storage
    slot overwritten.  Where there is no storage to write to, nothing
    changes. *)
Definition saveState (st : RoutineState) (h : host) : host :=
  match h with
  | Prerender => Prerender
  | Browser localStorage =>
      let payload := JSON_stringify (payload_value st) in
      Browser (<[STORAGE_KEY := payload]> localStorage)
  | Blocked error => Blocked error
  end.

(** Whether the storage, with the items it holds, has room for a value
    under a key.  A browser refuses a write that takes the origin over its
    quota, and some refuse every write (a quota of zero). *)
Definition quota : Type := gmap string string → string → string → bool.

(** [localStorage.setItem(k, v)] *)
Definition setItem (room : quota) (localStorage : gmap string string)
    (k v : string) : completion (gmap string string) :=
  if room localStorage k v then Normal (<[k := v]> localStorage)
  else Throw (DOMException "QuotaExceededError").

(** The effect itself.  Nothing guards the write: what the storage throws
    leaves the effect. *)
Definition effect (room : quota) (st : RoutineState) (h : host) : completion host :=
  match h with
  | Prerender => Normal Prerender
  | Browser localStorage =>
      let payload := JSON_stringify (payload_value st) in
      localStorage' ← setItem room localStorage STORAGE_KEY payload;
      Normal (Browser localStorage')
  | Blocked error => Throw error
  end.

(** Vocabulary for the statements: the task lists the page can hold, the
    catalog with one flag per task. *)
Definition catalog_state (flags : list bool) : list RoutineTask :=
  zip_with with_completed defaultTasks flags.

(** ** State changes of the page *)

Definition toggleTask (task_id : string) (prev : list RoutineTask) : list RoutineTask :=
  (λ task,
    if String.eqb (id task) task_id
    then with_completed task (negb (completed task))
    else task) <$> prev.

(** The two handlers that change state: a task's button and the check-in
    button. *)
Inductive action : Type :=
  | ToggleTask (task_id : string)
  | ToggleHydrated.

Definition update (st : RoutineState) (a : action) : RoutineState :=
  match a with
  | ToggleTask task_id => mkState (toggleTask task_id (tasks st)) (hydrated st)
  | ToggleHydrated => mkState (tasks st) (negb (hydrated st))
  end.

(** States the page can be in on host [h]: the loaded one, and those that
    follow by clicks. *)
Inductive live (h : host) : RoutineState → Prop :=
  | live_initial st log :
      loadRoutineState h = (Normal st, log) → live h st
  | live_update st a :
      live h st → live h (update st a).

(** ** A session of the page *)

(** The storage the page sees and the state it holds. *)
Record page : Type := mkPage {
  page_host : host;
  page_state : RoutineState;
}.

(** The first render: [useMemo] loads the initial state, and the effect
    runs once after mounting.  An error that leaves the effect takes the
    page down. *)
Definition mount (room : quota) (h : host) : completion page :=
  initialState ← (loadRoutineState h).1;
  h' ← effect room initialState h;
  Normal (mkPage h' initialState).

(** A click: the handler sets the new state (a fresh [tasks] array, or the
    negated [hydrated]), and the effect, whose dependencies changed, runs
    after the render. *)
Definition dispatch (room : quota) (p : page) (a : action) : completion page :=
  let st := update (page_state p) a in
  h' ← effect room st (page_host p);
  Normal (mkPage h' st).

Fixpoint clicks (room : quota) (p : page) (actions : list action)
  : completion page :=
  match actions with
  | [] => Normal p
  | a :: rest => p' ← dispatch room p a; clicks room p' rest
  end.

Definition session (room : quota) (h : host) (actions : list action)
  : completion page :=
  p ← mount room h; clicks room p actions.

(** Vocabulary for the statements: the platform's [JSON.parse] reads back
    the object that its [JSON.stringify] wrote for the state [st], from a
    text that is not empty. *)
Definition reads_back (st : RoutineState) : Prop :=
  JSON_stringify (payload_value st) ≠ "" ∧
  JSON_parse (JSON_stringify (payload_value st)) = Some (payload_value st).

End WithPlatform.

(** ** View derivation *)

(** [s.split(sep)] for a one-character separator. *)
Fixpoint split (sep : ascii) (s : string) : list string :=
  match s with
  | EmptyString => [""]
  | String c rest =>
      if Ascii.eqb c sep then "" :: split sep rest
      else match split sep rest with
           | part :: parts => String c part :: parts
           | [] => [String c ""]
           end
  end.

(** Integer-valued numbers are carried as [Z] while every intermediate
    result stays a safe integer, where the double arithmetic is exact; [None]
    is a number this integer model does not follow (a fraction, [NaN], or a
    magnitude beyond [Number.MAX_SAFE_INTEGER]). *)
Definition MAX_SAFE_INTEGER : Z := 2 ^ 53 - 1.

Definition safe (z : Z) : option Z :=
  if (Z.abs z <=? MAX_SAFE_INTEGER)%Z then Some z else None.

Definition digit (c : ascii) : option Z :=
  let n := Z.of_N (Ascii.N_of_ascii c) in
  if (48 <=? n)%Z && (n <=? 57)%Z then Some (n - 48)%Z else None.

Fixpoint digits (s : string) (acc : Z) : option Z :=
  match s with
  | EmptyString => Some acc
  | String c rest => d ← digit c; digits rest (10 * acc + d)%Z
  end.

(** [Number(s)] on the strings the integer model follows: a run of decimal
    digits (the empty string is 0).  Signs, fractions, exponents, blanks,
    other radixes and text that is not numeric are left to [None]. *)
Definition ToNumber (s : string) : option Z := digits s 0 ≫= safe.

Definition parseMinutes (time : string) : option Z :=
  match ToNumber <$> split ":"%char time with
  | hours :: minutes :: _ =>
      h ← hours; m ← minutes;
      p ← safe (h * 60);
      safe (p + m)
  | _ => None
  end.

(** The comparator handed to [sort]. *)
Definition compare_times (a b : RoutineTask) : option Z :=
  x ← parseMinutes (time a); y ← parseMinutes (time b); safe (x - y).

(** [Array.prototype.sort] with a comparator.  ECMAScript leaves the
    algorithm open but asks for a stable sort; for a consistent comparator
    the result is then determined, and a stable insertion sort computes it.
    [None] when some comparison is outside the integer model. *)
Section Sort.
Context {A : Type} (comparefn : A → A → option Z).

Fixpoint insert_sorted (x : A) (l : list A) : option (list A) :=
  match l with
  | [] => Some [x]
  | y :: rest =>
      c ← comparefn x y;
      if (c <=? 0)%Z then Some (x :: y :: rest)
      else r ← insert_sorted x rest; Some (y :: r)
  end.

Fixpoint Array_sort (l : list A) : option (list A) :=
  match l with
  | [] => Some []
  | x :: rest => sorted ← Array_sort rest; insert_sorted x sorted
  end.

End Sort.

Definition upcoming (tasks : list RoutineTask) : option (list RoutineTask) :=
  sorted ← Array_sort compare_times (filter (λ task, completed task = false) tasks);
  Some (take 3 sorted).

(** The double nearest to an integer. *)
Definition number_of_Z (z : Z) : number := binary_normalize prec emax z 0 false.

(** [Math.round]: the integer nearest to [x], a half going up; a value that
    is not finite or already integral is returned as it is, and a result of
    zero keeps the sign of [x]. *)
Definition Math_round (x : number) : number :=
  match x with
  | S754_finite s m (Zneg p) =>
      let half := Z.shiftl 1 (Zpos p - 1) in
      let signed := if s then Z.neg m else Z.pos m in
      let z := Z.shiftr (signed + half) (Zpos p) in
      if (z =? 0)%Z then S754_zero s else number_of_Z z
  | _ => x
  end.

Definition totalCompleted (tasks : list RoutineTask) : nat :=
  length (filter (λ task, completed task = true) tasks).

(** [totalTasks === 0 ? 0 : Math.round((totalCompleted / totalTasks) * 100)] *)
Definition percentage (totalCompleted totalTasks : nat) : number :=
  if Nat.eqb totalTasks 0 then number_of_Z 0
  else Math_round
         (SFmul prec emax
            (SFdiv prec emax (number_of_Z (Z.of_nat totalCompleted))
                             (number_of_Z (Z.of_nat totalTasks)))
            (number_of_Z 100)).

Definition completionRate (tasks : list RoutineTask) : number :=
  percentage (totalCompleted tasks) (length tasks).

(** The rate as the specification words it: the integer nearest to
    [100 * completed / total], a half going up, and 0 for no tasks. *)
Definition spec_completionRate (completed total : Z) : Z :=
  if (total =? 0)%Z then 0%Z else ((200 * completed + total) / (2 * total))%Z.

(** [x >= y] on numbers. *)
Definition number_ge (x y : number) : bool := SFleb y x.

Definition trend (completionRate : number) : string :=
  if number_ge completionRate (number_of_Z 80) then "On track" else "Keep going".

(** ** The sections by block and the upcoming panel *)

Definition blockOrder : list Block := [Morning; Midday; Afternoon; Evening].

Definition blockLabels (b : Block) : string :=
  match b with
  | Morning => "Daybreak"
  | Midday => "Momentum"
  | Afternoon => "Execution"
  | Evening => "Reset"
  end.

#[global] Instance Block_eq_dec : EqDecision Block.
Proof. solve_decision. Defined.

Definition tasksInBlock (tasks : list RoutineTask) (b : Block)
  : option (list RoutineTask) :=
  Array_sort compare_times (filter (λ task, block task = b) tasks).

(** What one section renders: the block, its label, the count with the
    plural ending of [task], and the rows. *)
Record BlockSection : Type := mkSection {
  section_block : Block;
  section_label : string;
  section_count : nat;
  section_plural : string;
  section_rows : list RoutineTask;
}.

(** [blockOrder.map((block) => ...)] *)
Definition sections (tasks : list RoutineTask) : option (list BlockSection) :=
  mapM (λ b,
          rows ← tasksInBlock tasks b;
          Some (mkSection b (blockLabels b) (length rows)
                          (if Nat.eqb (length rows) 1 then "" else "s") rows))
       blockOrder.

(** The upcoming panel: a fixed line when nothing is upcoming, else one row
    of title and time per upcoming task. *)
Inductive panel : Type :=
  | AllSet (text : string)
  | Upcoming (rows : list (string * string)).

Definition upcoming_panel (tasks : list RoutineTask) : option panel :=
  up ← upcoming tasks;
  Some (if Nat.eqb (length up) 0 then AllSet "All set for today."
        else Upcoming ((λ task, (title task, time task)) <$> up)).

(** Vocabulary for the statements: the integer a number stands for, when it
    is one. *)
Definition integer_value (x : number) : option Z :=
  match x with
  | S754_zero _ => Some 0%Z
  | S754_finite s m e =>
      let magnitude :=
        match e with
        | Zneg p =>
            if (Zpos m mod 2 ^ Zpos p =? 0)%Z then Some (Zpos m / 2 ^ Zpos p)%Z
            else None
        | _ => Some (Zpos m * 2 ^ e)%Z
        end in
      (λ z, if s then (- z)%Z else z) <$> magnitude
  | _ => None
  end.

(** The integer the summary panel prints before the percent sign. *)
Definition percent_value (totalCompleted totalTasks : nat) : Z :=
  default 0%Z (integer_value (percentage totalCompleted totalTasks)).

(** ** A reference platform

    An executable rendering of the three built-ins after ECMAScript, on
    strings read as UTF-8 bytes.  The statements below hold on every
    platform; this one serves to evaluate the loader on concrete storage. *)

Module Reference.

(** *** Numbers and decimal text *)

(** The double nearest to [s * 10^q], for [s > 0]. *)
Definition number_of_decimal (s : positive) (q : Z) : number :=
  match q with
  | Zneg p =>
      SFdiv prec emax (S754_finite false s 0)
                      (S754_finite false (Z.to_pos (10 ^ Zpos p)) 0)
  | _ => binary_normalize prec emax (Zpos s * 10 ^ q) 0 false
  end.

Definition decimal (n : Z) : string :=
  NilZero.string_of_uint (N.to_uint (Z.to_N n)).

Definition zeros (n : Z) : string :=
  String.string_of_list_ascii (replicate (Z.to_nat n) "0"%char).

(** [x < 10^n] for the positive rational [x = num / den]. *)
Definition below_power (num den n : Z) : bool :=
  if (0 <=? n)%Z then (num <? 10 ^ n * den)%Z else (num * 10 ^ (- n) <? den)%Z.

Fixpoint decimal_exponent (fuel : nat) (num den n : Z) : Z :=
  match fuel with
  | O => n
  | S fuel =>
      if below_power num den n then n else decimal_exponent fuel num den (n + 1)
  end.

(** [floor (x / 10^q)] for [x = num / den]. *)
Definition scaled_floor (num den q : Z) : Z :=
  if (0 <=? q)%Z then (num / (den * 10 ^ q))%Z else (num * 10 ^ (- q) / den)%Z.

(** The candidates with [k] digits around [x], and the choice among those
    that read back as [x]: the nearer one, the even one on a tie. *)
Definition shortest_at (x : number) (num den n k : Z) : option (Z * Z) :=
  let q := (n - k)%Z in
  let lo := scaled_floor num den q in
  let hi := (lo + 1)%Z in
  let reads s := (0 <? s)%Z && bool_decide (number_of_decimal (Z.to_pos s) q = x) in
  (* 2x compared with (lo + hi) * 10^q *)
  let nearer_lo :=
    if (0 <=? q)%Z then (2 * num ?= (lo + hi) * 10 ^ q * den)%Z
    else (2 * num * 10 ^ (- q) ?= (lo + hi) * den)%Z in
  match reads lo, reads hi with
  | true, true =>
      match nearer_lo with
      | Lt => Some (lo, q)
      | Gt => Some (hi, q)
      | Eq => Some (if Z.even lo then lo else hi, q)
      end
  | true, false => Some (lo, q)
  | false, true => Some (hi, q)
  | false, false => None
  end.

Fixpoint shortest (fuel : nat) (x : number) (num den n k : Z) : Z * Z :=
  match fuel with
  | O => (0, 0)%Z
  | S fuel =>
      match shortest_at x num den n k with
      | Some sq => sq
      | None => shortest fuel x num den n (k + 1)
      end
  end.

Fixpoint strip_zeros (fuel : nat) (s q : Z) : Z * Z :=
  match fuel with
  | O => (s, q)
  | S fuel =>
      if (0 <? s)%Z && (s mod 10 =? 0)%Z then strip_zeros fuel (s / 10) (q + 1)
      else (s, q)
  end.

(** [Number::toString] of a positive finite number. *)
Definition positive_toString (m : positive) (e : Z) : string :=
  let x := S754_finite false m e in
  let num := if (0 <=? e)%Z then (Zpos m * 2 ^ e)%Z else Zpos m in
  let den := if (0 <=? e)%Z then 1%Z else (2 ^ (- e))%Z in
  let bits := (Zpos (digits2_pos m) + e)%Z in
  let n := decimal_exponent 8 num den ((bits - 1) * 30102 / 100000 - 1) in
  let '(s, q) := shortest 17 x num den n 1 in
  let '(s, q) := strip_zeros 400 s q in
  let ds := decimal s in
  let k := Z.of_nat (String.length ds) in
  let n := (q + k)%Z in
  if (k <=? n)%Z && (n <=? 21)%Z then ds +:+ zeros (n - k)
  else if (0 <? n)%Z && (n <=? 21)%Z then
    String.substring 0 (Z.to_nat n) ds +:+ "." +:+
    String.substring (Z.to_nat n) (Z.to_nat (k - n)) ds
  else if (-6 <? n)%Z && (n <=? 0)%Z then "0." +:+ zeros (- n) +:+ ds
  else
    let exponent := (if (0 <=? n - 1)%Z then "+" else "-") +:+ decimal (Z.abs (n - 1)) in
    if (k =? 1)%Z then ds +:+ "e" +:+ exponent
    else String.substring 0 1 ds +:+ "." +:+
         String.substring 1 (Z.to_nat (k - 1)) ds +:+ "e" +:+ exponent.

Definition Number_toString (x : number) : string :=
  match x with
  | S754_nan => "NaN"
  | S754_zero _ => "0"
  | S754_infinity false => "Infinity"
  | S754_infinity true => "-Infinity"
  | S754_finite false m e => positive_toString m e
  | S754_finite true m e => "-" +:+ positive_toString m e
  end.

(** *** [JSON.stringify] *)

Definition quotation_mark : ascii := "034"%char.
Definition reverse_solidus : ascii := "092"%char.

Definition hex_digit (n : N) : ascii :=
  ascii_of_N (if (n <? 10)%N then 48 + n else 87 + n).

(** [QuoteJSONString] on the bytes of a string. *)
Fixpoint quote_chars (s : string) : string :=
  match s with
  | EmptyString => EmptyString
  | String c rest =>
      let n := N_of_ascii c in
      (if (n =? 34)%N then String reverse_solidus (String quotation_mark "")
       else if (n =? 92)%N then "\\"
       else if (n =? 8)%N then "\b"
       else if (n =? 12)%N then "\f"
       else if (n =? 10)%N then "\n"
       else if (n =? 13)%N then "\r"
       else if (n =? 9)%N then "\t"
       else if (n <? 32)%N then
         "\u00" +:+ String (hex_digit (n / 16)) (String (hex_digit (n mod 16)) "")
       else String c "") +:+ quote_chars rest
  end.

Definition quote (s : string) : string :=
  String quotation_mark (quote_chars s +:+ String quotation_mark "").

Fixpoint join (sep : string) (parts : list string) : string :=
  match parts with
  | [] => ""
  | [part] => part
  | part :: rest => part +:+ sep +:+ join sep rest
  end.

(** An array index as a property key: a canonical decimal below 2^32 - 1. *)
Definition array_index (k : string) : option Z :=
  match k with
  | EmptyString => None
  | String c rest =>
      if Ascii.eqb c "0" && negb (String.eqb rest "") then None
      else
        (fix go (s : string) (acc : Z) : option Z :=
           match s with
           | EmptyString => if (acc <? 2 ^ 32 - 1)%Z then Some acc else None
           | String c rest =>
               match digit c with
               | Some d =>
                   if (acc <? 2 ^ 32)%Z then go rest (10 * acc + d)%Z else None
               | None => None
               end
           end) k 0%Z
  end.

(** The properties of the object a property list stands for, in the order
    in which [JSON.stringify] visits them: a repeated key keeps its first
    place and its last value; array indices come first, ascending. *)
Definition set_property {V} (acc : list (string * V)) (kv : string * V)
  : list (string * V) :=
  if existsb (λ e, String.eqb e.1 kv.1) acc
  then (λ e, if String.eqb e.1 kv.1 then kv else e) <$> acc
  else acc ++ [kv].

Fixpoint insert_index {V} (i : Z) (kv : string * V)
    (l : list (Z * (string * V))) : list (Z * (string * V)) :=
  match l with
  | [] => [(i, kv)]
  | (j, e) :: rest =>
      if (i <? j)%Z then (i, kv) :: l else (j, e) :: insert_index i kv rest
  end.

Definition own_keys {V} (props : list (string * V)) : list (string * V) :=
  let distinct := foldl set_property [] props in
  let indexed :=
    foldr (λ kv acc,
             match array_index kv.1 with
             | Some i => insert_index i kv acc
             | None => acc
             end) [] distinct in
  (snd <$> indexed)
  ++ filter (λ kv, array_index kv.1 = None) distinct.

Definition finite (x : number) : bool :=
  match x with S754_zero _ | S754_finite _ _ _ => true | _ => false end.

Fixpoint JSON_stringify (v : value) : string :=
  match v with
  | VNull => "null"
  | VBool true => "true"
  | VBool false => "false"
  | VNum n => if finite n then Number_toString n else "null"
  | VStr s => quote s
  | VArr items =>
      "[" +:+ join "," ((fix each (l : list value) : list string :=
                           match l with
                           | [] => []
                           | x :: rest => JSON_stringify x :: each rest
                           end) items) +:+ "]"
  | VObj props =>
      let rendered :=
        (fix each (l : list (string * value)) : list (string * string) :=
           match l with
           | [] => []
           | (k, x) :: rest => (k, JSON_stringify x) :: each rest
           end) props in
      "{" +:+ join "," ((λ kv, quote kv.1 +:+ ":" +:+ kv.2) <$> own_keys rendered)
      +:+ "}"
  end.

(** *** [JSON.parse] *)

Definition is_space (c : ascii) : bool :=
  let n := N_of_ascii c in
  (n =? 32)%N || (n =? 9)%N || (n =? 10)%N || (n =? 13)%N.

Fixpoint skip_space (s : string) : string :=
  match s with
  | String c rest => if is_space c then skip_space rest else s
  | EmptyString => s
  end.

Fixpoint strip_prefix (p s : string) : option string :=
  match p, s with
  | EmptyString, _ => Some s
  | String a p, String b s => if Ascii.eqb a b then strip_prefix p s else None
  | _, EmptyString => None
  end.

(** A run of digits: its value after [acc], how many there were, the rest. *)
Fixpoint read_digits (s : string) (acc : Z) (count : Z) : Z * Z * string :=
  match s with
  | String c rest =>
      match digit c with
      | Some d => read_digits rest (10 * acc + d) (count + 1)
      | None => (acc, count, s)
      end
  | EmptyString => (acc, count, s)
  end.

(** A JSON number: [-]? int frac? exp?, read as the nearest double. *)
Definition read_number (s : string) : option (number * string) :=
  let '(negative, s) :=
    match s with
    | String c rest => if Ascii.eqb c "-" then (true, rest) else (false, s)
    | EmptyString => (false, s)
    end in
  '(int, s) ←
    match s with
    | String c rest =>
        if Ascii.eqb c "0" then Some (0%Z, rest)
        else match digit c with
             | Some _ => let '(z, _, r) := read_digits s 0 0 in Some (z, r)
             | None => None
             end
    | EmptyString => None
    end;
  '(mantissa, scale, s) ←
    match s with
    | String c rest =>
        if Ascii.eqb c "." then
          let '(z, count, r) := read_digits rest int 0 in
          if (count =? 0)%Z then None else Some (z, (- count)%Z, r)
        else Some (int, 0%Z, s)
    | EmptyString => Some (int, 0%Z, s)
    end;
  '(exponent, s) ←
    match s with
    | String c rest =>
        if Ascii.eqb c "e" || Ascii.eqb c "E" then
          let '(minus, rest) :=
            match rest with
            | String c' rest' =>
                if Ascii.eqb c' "-" then (true, rest')
                else if Ascii.eqb c' "+" then (false, rest')
                else (false, rest)
            | EmptyString => (false, rest)
            end in
          let '(z, count, r) := read_digits rest 0 0 in
          if (count =? 0)%Z then None
          else Some (if minus then (- z)%Z else z, r)
        else Some (0%Z, s)
    | EmptyString => Some (0%Z, s)
    end;
  let magnitude :=
    match mantissa with
    | Zpos m => number_of_decimal m (scale + exponent)
    | _ => S754_zero false
    end in
  Some (if negative then SFopp magnitude else magnitude, s).

Definition hex_value (c : ascii) : option Z :=
  let n := Z.of_N (N_of_ascii c) in
  if (48 <=? n)%Z && (n <=? 57)%Z then Some (n - 48)%Z
  else if (65 <=? n)%Z && (n <=? 70)%Z then Some (n - 55)%Z
  else if (97 <=? n)%Z && (n <=? 102)%Z then Some (n - 87)%Z
  else None.

(** The four hex digits of a [\u] escape. *)
Definition read_hex4 (s : string) : option (Z * string) :=
  match s with
  | String a (String b (String c (String d rest))) =>
      x ← hex_value a; y ← hex_value b; z ← hex_value c; w ← hex_value d;
      Some (((x * 16 + y) * 16 + z) * 16 + w, rest)%Z
  | _ => None
  end.

Definition byte (z : Z) : ascii := ascii_of_N (Z.to_N z).

(** The bytes that stand for a code point (a lone surrogate is kept in the
    three-byte form). *)
Definition utf8 (cp : Z) : string :=
  if (cp <? 128)%Z then String (byte cp) ""
  else if (cp <? 2048)%Z then
    String (byte (192 + cp / 64)) (String (byte (128 + cp mod 64)) "")
  else if (cp <? 65536)%Z then
    String (byte (224 + cp / 4096))
      (String (byte (128 + cp / 64 mod 64)) (String (byte (128 + cp mod 64)) ""))
  else
    String (byte (240 + cp / 262144))
      (String (byte (128 + cp / 4096 mod 64))
         (String (byte (128 + cp / 64 mod 64))
            (String (byte (128 + cp mod 64)) ""))).

(** The characters of a string literal after its opening quote. *)
Fixpoint read_chars (fuel : nat) (s : string) : option (string * string) :=
  match fuel, s with
  | S fuel, String c rest =>
      let n := N_of_ascii c in
      if (n =? 34)%N then Some ("", rest)
      else if (n <? 32)%N then None
      else if (n =? 92)%N then
        match rest with
        | String e rest =>
            '(decoded, rest) ←
              (let m := N_of_ascii e in
               if (m =? 34)%N || (m =? 92)%N || (m =? 47)%N then Some (String e "", rest)
               else if Ascii.eqb e "b" then Some (String (byte 8) "", rest)
               else if Ascii.eqb e "f" then Some (String (byte 12) "", rest)
               else if Ascii.eqb e "n" then Some (String (byte 10) "", rest)
               else if Ascii.eqb e "r" then Some (String (byte 13) "", rest)
               else if Ascii.eqb e "t" then Some (String (byte 9) "", rest)
               else if Ascii.eqb e "u" then
                 '(unit, rest) ← read_hex4 rest;
                 let pair :=
                   if (55296 <=? unit)%Z && (unit <? 56320)%Z then
                     '(low, rest') ← (strip_prefix "\u" rest ≫= read_hex4);
                     if (56320 <=? low)%Z && (low <? 57344)%Z
                     then Some (utf8 (65536 + (unit - 55296) * 1024 + (low - 56320)), rest')
                     else None
                   else None in
                 Some (default (utf8 unit, rest) pair)
               else None);
            '(tail, rest) ← read_chars fuel rest;
            Some (decoded +:+ tail, rest)
        | EmptyString => None
        end
      else
        '(tail, rest) ← read_chars fuel rest;
        Some (String c tail, rest)
  | _, _ => None
  end.

Fixpoint read_value (fuel : nat) (s : string) : option (value * string) :=
  match fuel with
  | O => None
  | S fuel =>
      match skip_space s with
      | EmptyString => None
      | String c rest as s =>
          let n := N_of_ascii c in
          if (n =? 34)%N then
            '(str, rest) ← read_chars (String.length rest) rest; Some (VStr str, rest)
          else if Ascii.eqb c "[" then
            match skip_space rest with
            | String c' rest' as after =>
                if Ascii.eqb c' "]" then Some (VArr [], rest')
                else read_elements fuel after []
            | EmptyString => None
            end
          else if Ascii.eqb c "{" then
            match skip_space rest with
            | String c' rest' as after =>
                if Ascii.eqb c' "}" then Some (VObj [], rest')
                else read_members fuel after []
            | EmptyString => None
            end
          else if Ascii.eqb c "t" then rest ← strip_prefix "true" s; Some (VBool true, rest)
          else if Ascii.eqb c "f" then rest ← strip_prefix "false" s; Some (VBool false, rest)
          else if Ascii.eqb c "n" then rest ← strip_prefix "null" s; Some (VNull, rest)
          else '(x, rest) ← read_number s; Some (VNum x, rest)
      end
  end
with read_elements (fuel : nat) (s : string) (acc : list value)
  : option (value * string) :=
  match fuel with
  | O => None
  | S fuel =>
      '(v, rest) ← read_value fuel s;
      match skip_space rest with
      | String c rest =>
          if Ascii.eqb c "," then read_elements fuel rest (v :: acc)
          else if Ascii.eqb c "]" then Some (VArr (reverse (v :: acc)), rest)
          else None
      | EmptyString => None
      end
  end
with read_members (fuel : nat) (s : string) (acc : list (string * value))
  : option (value * string) :=
  match fuel with
  | O => None
  | S fuel =>
      match skip_space s with
      | String c rest =>
          if (N_of_ascii c =? 34)%N then
            '(k, rest) ← read_chars (String.length rest) rest;
            match skip_space rest with
            | String c rest =>
                if Ascii.eqb c ":" then
                  '(v, rest) ← read_value fuel rest;
                  match skip_space rest with
                  | String c rest =>
                      if Ascii.eqb c "," then read_members fuel rest ((k, v) :: acc)
                      else if Ascii.eqb c "}" then
                        Some (VObj (reverse ((k, v) :: acc)), rest)
                      else None
                  | EmptyString => None
                  end
                else None
            | EmptyString => None
            end
          else None
      | EmptyString => None
      end
  end.

(** [None] is the [SyntaxError]. *)
Definition JSON_parse (text : string) : option value :=
  '(v, rest) ← read_value (2 * String.length text + 2) text;
  match skip_space rest with
  | EmptyString => Some v
  | _ => None
  end.

End Reference.

Definition reference_platform : Platform := {|
  JSON_parse := Reference.JSON_parse;
  JSON_stringify := Reference.JSON_stringify;
  Number_toString := Reference.Number_toString;
|}.

(** ** Sample inputs

    Storage contents and task lists on which the statements are evaluated. *)

Definition storage_with (v : value) : host :=
  Browser {[ STORAGE_KEY := Reference.JSON_stringify v ]}.

Definition entry (item_id flag : value) : value :=
  VObj [("id", item_id); ("completed", flag)].

Definition sample_items : list value :=
  [entry (VStr "plan") (VBool true); entry (VStr "siesta") (VBool true);
   entry (VStr "unwind") (VBool false); VNull;
   entry (VStr "unwind") (VBool true)].

Definition sample_snapshot : value :=
  VObj [("tasks", VArr sample_items); ("hydrated", VBool true)].

Definition garbled_storage : host :=
  Browser {[ STORAGE_KEY := "{oops" ]}.

(** A storage that takes every write, and one that takes none. *)
Definition unlimited : quota := λ _ _ _, true.
Definition no_room : quota := λ _ _ _, false.

Definition plan_task : RoutineTask :=
  mkTask "plan" "Plan the day" "07:15" Morning
         "Review calendar and set top 3 priorities" false.

(** A stored fragment whose [completed] is a string. *)
Definition yes_fragment : value := entry (VStr "plan") (VStr "yes").

(** Forty tasks, 23 of them completed. *)
Definition forty_tasks : list RoutineTask :=
  replicate 23 (with_completed plan_task true) ++ replicate 17 plan_task.

(** An id that [String] cannot convert, and an array that it converts to a
    catalog id. *)
Definition opaque_id : value := VObj [("toString", VNum (number_of_Z 1))].
Definition array_id : value := VArr [VStr "plan"].

(** * Properties *)

(** ** The lookup table of the reconciler *)

Lemma Map_new_snoc entries e :
  Map_new (entries ++ [e]) = <[e.1 := e.2]> (Map_new entries).
Proof. unfold Map_new. by rewrite foldl_snoc. Qed.

Lemma Map_new_absent entries k :
  (∀ e, e ∈ entries → e.1 ≠ k) → Map_new entries !! k = None.
Proof.
  induction entries as [|e entries IH] using rev_ind; intros Hk.
  - apply lookup_empty.
  - rewrite Map_new_snoc, lookup_insert_ne.
    + apply IH. intros e' He'. apply Hk, elem_of_app. by left.
    + apply Hk, elem_of_app. right. by apply list_elem_of_singleton.
Qed.

Lemma Map_new_last before k v after :
  (∀ e, e ∈ after → e.1 ≠ k) →
  Map_new (before ++ (k, v) :: after) !! k = Some v.
Proof.
  induction after as [|e after IH] using rev_ind; intros Hk.
  - by rewrite Map_new_snoc, lookup_insert_eq.
  - replace (before ++ (k, v) :: after ++ [e])
      with ((before ++ (k, v) :: after) ++ [e]) by by rewrite <- app_assoc.
    rewrite Map_new_snoc, lookup_insert_ne.
    + apply IH. intros e' He'. apply Hk, elem_of_app. by left.
    + apply Hk, elem_of_app. right. by apply list_elem_of_singleton.
Qed.

Lemma Map_new_filter (p : string * value → bool) entries k :
  (∀ e, e.1 = k → p e = true) →
  Map_new (filter (λ e, p e = true) entries) !! k = Map_new entries !! k.
Proof.
  intros Hp. induction entries as [|e entries IH] using rev_ind; [done|].
  rewrite filter_app, Map_new_snoc. rewrite filter_cons, filter_nil.
  destruct (decide (e.1 = k)) as [Hk|Hk].
  - rewrite decide_True by by apply Hp.
    by rewrite Map_new_snoc, Hk, !lookup_insert_eq.
  - rewrite lookup_insert_ne by done. rewrite <- IH.
    case_decide; [|by rewrite app_nil_r].
    by rewrite Map_new_snoc, lookup_insert_ne.
Qed.

(** ** The reconciler on a stored array *)

Section Reconciler.
Context `{Platform}.

Lemma Get_Some_object item k v :
  Get item k = Some v → ToBoolean item = true ∧ typeof item = "object".
Proof. by destruct item. Qed.

Lemma stored_entry_convertible item :
  convertible item →
  stored_entry item = Normal (entry_of item).
Proof.
  intros Hc. unfold stored_entry, entry_of, stored_key.
  destruct (Get item "id") as [item_id|] eqn:Hid.
  - destruct (Get_Some_object _ _ _ Hid) as [-> ->]. simpl.
    destruct (Hc item_id Hid) as [key ->]. done.
  - by destruct (ToBoolean item && String.eqb (typeof item) "object").
Qed.

Lemma mapM_stored_entry items :
  Forall convertible items →
  mapM stored_entry items = Normal (entry_of <$> items).
Proof.
  induction 1 as [|item items Hc _ IH]; [done|].
  cbn. rewrite (stored_entry_convertible _ Hc). cbn.
  fold (mapM stored_entry items). rewrite IH. done.
Qed.

Lemma omap_fmap_id {A B} (f : A → option B) (l : list A) :
  omap (λ e, e) (f <$> l) = omap f l.
Proof. induction l as [|x l IH]; [done|]. cbn. destruct (f x); by rewrite IH. Qed.

Lemma mergeTaskState_convertible items :
  Forall convertible items →
  mergeTaskState (VArr items)
  = Normal (merge_task (Map_new (omap entry_of items)) <$> defaultTasks).
Proof.
  intros Hc. unfold mergeTaskState.
  rewrite (mapM_stored_entry _ Hc). cbn. by rewrite omap_fmap_id.
Qed.

Lemma omap_entry_of_filter (items : list value) :
  omap entry_of (filter (λ item, catalog_entry item = true) items)
  = filter (λ e, bool_decide (e.1 ∈ id <$> defaultTasks) = true) (omap entry_of items).
Proof.
  induction items as [|item items IH]; [done|].
  rewrite filter_cons. cbn [omap list_omap].
  assert (catalog_entry item
          = match entry_of item with
            | Some e => bool_decide (e.1 ∈ id <$> defaultTasks)
            | None => false
            end) as Hc.
  { unfold catalog_entry, entry_of. by destruct (stored_key item). }
  destruct (entry_of item) as [e|] eqn:He.
  - rewrite filter_cons.
    destruct (decide (catalog_entry item = true)) as [H1|H1];
      destruct (decide (bool_decide (e.1 ∈ id <$> defaultTasks) = true)) as [H2|H2];
      rewrite Hc in H1; try done.
    cbn [omap list_omap]. by rewrite He, IH.
  - rewrite decide_False by (by rewrite Hc). done.
Qed.

Lemma stored_lookup_absent (items : list value) k :
  (∀ item, item ∈ items → stored_key item ≠ Some k) →
  Map_new (omap entry_of items) !! k = None.
Proof.
  intros Hk. apply Map_new_absent. intros [k' item] Hin Heq.
  cbn in Heq. subst k'.
  apply list_elem_of_omap in Hin as (item' & Hin & He).
  unfold entry_of in He. destruct (stored_key item') eqn:Hs; [|done].
  cbn in He. injection He as -> ->. by apply (Hk _ Hin).
Qed.

Lemma stored_lookup_last (before : list value) item after k :
  stored_key item = Some k →
  (∀ x, x ∈ after → stored_key x ≠ Some k) →
  Map_new (omap entry_of (before ++ item :: after)) !! k = Some item.
Proof.
  intros Hitem Hafter. rewrite omap_app. cbn [omap list_omap].
  unfold entry_of at 2. rewrite Hitem. cbn.
  apply Map_new_last. intros [k' x] Hin Heq. cbn in Heq. subst k'.
  apply list_elem_of_omap in Hin as (x' & Hin & He).
  unfold entry_of in He. destruct (stored_key x') eqn:Hs; [|done].
  cbn in He. injection He as -> ->. by apply (Hafter _ Hin).
Qed.

Lemma stored_lookup_catalog (items : list value) k :
  k ∈ id <$> defaultTasks →
  Map_new (omap entry_of (filter (λ item, catalog_entry item = true) items)) !! k
  = Map_new (omap entry_of items) !! k.
Proof.
  intros Hk. rewrite omap_entry_of_filter.
  apply (Map_new_filter (λ e, bool_decide (e.1 ∈ id <$> defaultTasks))).
  intros e ->. by apply bool_decide_eq_true.
Qed.

Lemma stored_key_string_id item s :
  Get item "id" = Some (VStr s) → stored_key item = Some s.
Proof. unfold stored_key. by intros ->. Qed.

Lemma convertible_plain_id item :
  (∀ item_id, Get item "id" = Some item_id →
     match item_id with VArr _ | VObj _ => False | _ => True end) →
  convertible item.
Proof.
  intros Hplain item_id Hid. specialize (Hplain _ Hid).
  destruct item_id as [|[]| | | |]; try done; by eexists.
Qed.

Lemma stored_key_object item k :
  stored_key item = Some k → ToBoolean item = true.
Proof. by destruct item. Qed.

End Reconciler.

(** ** The loader *)

Section Loader.
Context `{Platform}.

Lemma merge_task_fields storedById task :
  merge_task storedById task
  = with_completed task (completed (merge_task storedById task)).
Proof.
  unfold merge_task. destruct (storedById !! id task) as [candidate|].
  - destruct (negb (ToBoolean candidate)); [by destruct task | done].
  - by destruct task.
Qed.

Lemma merge_task_id storedById task :
  id (merge_task storedById task) = id task.
Proof. by rewrite merge_task_fields. Qed.

Lemma mergeTaskState_ids storedTasks merged :
  mergeTaskState storedTasks = Normal merged →
  id <$> merged = id <$> defaultTasks.
Proof.
  destruct storedTasks as [| | | |items|]; try by intros [= <-].
  unfold mergeTaskState.
  destruct (mapM stored_entry items) as [entries|]; [|done].
  unfold mbind, completion_bind. intros Heq.
  assert (merged = merge_task (Map_new (omap (λ e, e) entries)) <$> defaultTasks)
    as -> by congruence.
  rewrite <- list_fmap_compose.
  apply list_fmap_ext. intros _ task _. apply merge_task_id.
Qed.

Lemma try_block_ids localStorage st :
  try_block localStorage = Normal (Some st) →
  id <$> tasks st = id <$> defaultTasks.
Proof.
  unfold try_block.
  destruct (localStorage !! STORAGE_KEY) as [stored|]; [|by intros [= <-]].
  destruct (String.eqb stored ""); [by intros [= <-]|].
  destruct (JSON_parse stored) as [parsed|]; [|done].
  cbn [from_option mbind completion_bind].
  destruct (Array_isArray parsed).
  - destruct (mergeTaskState parsed) as [merged|] eqn:Hm; [|done].
    intros [= <-]. apply (mergeTaskState_ids _ _ Hm).
  - destruct (ToBoolean parsed && String.eqb (typeof parsed) "object"); [|done].
    destruct (Get parsed "tasks") as [parsed_tasks|]; [|done].
    destruct (Array_isArray parsed_tasks); [|done].
    destruct (mergeTaskState parsed_tasks) as [merged|] eqn:Hm; [|done].
    intros [= <-]. apply (mergeTaskState_ids _ _ Hm).
Qed.

Lemma loadRoutineState_returns h :
  ∃ st log, loadRoutineState h = (Normal st, log).
Proof.
  destruct h as [|localStorage|error]; cbn; [by eauto| |by eauto].
  destruct (try_block localStorage) as [[st|]|e]; eauto.
Qed.

Lemma loadRoutineState_ids h st log :
  loadRoutineState h = (Normal st, log) →
  id <$> tasks st = id <$> defaultTasks.
Proof.
  destruct h as [|localStorage|error]; cbn;
    [by intros [= <- <-]| |by intros [= <- <-]].
  destruct (try_block localStorage) as [[st'|]|e] eqn:Htry;
    intros [= <- <-]; try done.
  by apply (try_block_ids localStorage).
Qed.

Lemma load_snapshot h parsed items :
  stores h parsed → snapshot_items parsed = Some items →
  loadRoutineState h
  = match mergeTaskState (VArr items) with
    | Normal merged =>
        (Normal (mkState merged
                   (if Array_isArray parsed then false
                    else Boolean (Get parsed "hydrated"))), [])
    | Throw error =>
        (Normal createFallbackState,
         [("Failed to parse routine from localStorage", error)])
    end.
Proof.
  intros (localStorage & stored & -> & Hget & Hne & Hparse) Hitems.
  apply String.eqb_neq in Hne.
  unfold loadRoutineState, try_block. rewrite Hget, Hne, Hparse.
  destruct parsed as [| | | |items'|props]; try done.
  - injection Hitems as ->. cbn -[mergeTaskState createFallbackState].
    by destruct (mergeTaskState (VArr items)).
  - cbn in Hitems. cbn -[mergeTaskState createFallbackState].
    destruct (own_property "tasks" props) as [[| | | |items'|]|]; try done.
    injection Hitems as ->. cbn -[mergeTaskState createFallbackState].
    by destruct (mergeTaskState (VArr items)).
Qed.

Lemma load_no_snapshot h parsed :
  stores h parsed → snapshot_items parsed = None →
  loadRoutineState h = (Normal createFallbackState, []).
Proof.
  intros (localStorage & stored & -> & Hget & Hne & Hparse) Hitems.
  apply String.eqb_neq in Hne.
  unfold loadRoutineState, try_block. rewrite Hget, Hne, Hparse.
  destruct parsed as [|[]|n|s|items'|props]; try done.
  - by destruct n.
  - cbn. by destruct (String.eqb s "").
  - cbn in Hitems. cbn -[mergeTaskState createFallbackState].
    by destruct (own_property "tasks" props) as [[| | | |items'|]|].
Qed.

Lemma load_cases h :
  (∃ log, loadRoutineState h = (Normal createFallbackState, log))
  ∨ (∃ parsed items merged,
       stores h parsed ∧ snapshot_items parsed = Some items ∧
       mergeTaskState (VArr items) = Normal merged ∧
       loadRoutineState h
       = (Normal (mkState merged
                    (if Array_isArray parsed then false
                     else Boolean (Get parsed "hydrated"))), [])).
Proof.
  destruct h as [|localStorage|error]; [left; by eexists| |left; by eexists].
  destruct (localStorage !! STORAGE_KEY) as [stored|] eqn:Hget;
    [|left; eexists; unfold loadRoutineState, try_block; by rewrite Hget].
  destruct (String.eqb stored "") eqn:Hne;
    [left; eexists; unfold loadRoutineState, try_block; by rewrite Hget, Hne|].
  destruct (JSON_parse stored) as [parsed|] eqn:Hparse;
    [|left; eexists; unfold loadRoutineState, try_block;
      by rewrite Hget, Hne, Hparse].
  assert (stores (Browser localStorage) parsed) as Hst.
  { exists localStorage, stored. by apply String.eqb_neq in Hne. }
  destruct (snapshot_items parsed) as [items|] eqn:Hitems.
  - pose proof (load_snapshot _ _ _ Hst Hitems) as Hload.
    destruct (mergeTaskState (VArr items)) as [merged|e] eqn:Hm.
    + right. by exists parsed, items, merged.
    + left. by eexists.
  - left. eexists. by apply (load_no_snapshot _ parsed).
Qed.

End Loader.

(** ** Reconciliation *)

Section Reconciliation.
Context `{Platform}.

Lemma catalog_incomplete i task :
  defaultTasks !! i = Some task → completed task = false.
Proof.
  intros Hi. do 7 (destruct i as [|i]; [by injection Hi as <-|]). done.
Qed.

Lemma catalog_id_elem i task :
  defaultTasks !! i = Some task → id task ∈ id <$> defaultTasks.
Proof.
  intros Hi. apply list_elem_of_fmap. exists task. split; [done|].
  by apply list_elem_of_lookup_2 with i.
Qed.

Lemma merge_task_absent (items : list value) task :
  (∀ item, item ∈ items → stored_key item ≠ Some (id task)) →
  merge_task (Map_new (omap entry_of items)) task = task.
Proof. intros Hno. unfold merge_task. by rewrite stored_lookup_absent. Qed.

Lemma merge_task_last (before : list value) item after task :
  stored_key item = Some (id task) →
  (∀ x, x ∈ after → stored_key x ≠ Some (id task)) →
  merge_task (Map_new (omap entry_of (before ++ item :: after))) task
  = with_completed task (Boolean (Get item "completed")).
Proof.
  intros Hitem Hafter. unfold merge_task.
  rewrite (stored_lookup_last _ _ _ _ Hitem Hafter).
  by rewrite (stored_key_object _ _ Hitem).
Qed.

Lemma merge_catalog_entries (items : list value) :
  merge_task (Map_new (omap entry_of
                (filter (λ item, catalog_entry item = true) items)))
    <$> defaultTasks
  = merge_task (Map_new (omap entry_of items)) <$> defaultTasks.
Proof.
  apply list_fmap_ext. intros i task Hi. unfold merge_task.
  by rewrite (stored_lookup_catalog _ _ (catalog_id_elem _ _ Hi)).
Qed.

Lemma load_convertible h parsed items :
  stores h parsed → snapshot_items parsed = Some items →
  Forall convertible items →
  loadRoutineState h
  = (Normal (mkState (merge_task (Map_new (omap entry_of items)) <$> defaultTasks)
               (if Array_isArray parsed then false
                else Boolean (Get parsed "hydrated"))), []).
Proof.
  intros Hst Hitems Hc. rewrite (load_snapshot _ _ _ Hst Hitems).
  by rewrite (mergeTaskState_convertible _ Hc).
Qed.

(** C1, as the code has it. For a stored snapshot, in either accepted form,
    in which [String] converts the id of every entry (so it is when every id
    is a string), the loader returns without logging anything a task list
    with the catalog's ids in the catalog's order; each task has the
    catalog's static fields; its [completed] is [false] when no stored entry
    is filed under its id, and otherwise is the [Boolean] of the [completed]
    of the last entry filed under its id, which for a stored boolean is that
    boolean.  An entry whose id is a string is filed under that very string,
    and an item without an id is not filed at all.  Two such snapshots with
    the same entries under catalog ids load the same tasks: entries filed
    under other ids have no effect. *)
Theorem C1_reconciliation h parsed (items : list value) :
  stores h parsed → snapshot_items parsed = Some items →
  Forall convertible items →
  ∃ st,
    loadRoutineState h = (Normal st, []) ∧
    id <$> tasks st = id <$> defaultTasks ∧
    (∀ i task, defaultTasks !! i = Some task →
       ∃ r, tasks st !! i = Some r ∧
            r = with_completed task (completed r) ∧
            ((∀ item, item ∈ items → stored_key item ≠ Some (id task)) →
               completed r = false) ∧
            (∀ before item after,
               items = before ++ item :: after →
               stored_key item = Some (id task) →
               (∀ x, x ∈ after → stored_key x ≠ Some (id task)) →
               completed r = Boolean (Get item "completed") ∧
               (∀ b, Get item "completed" = Some (VBool b) → completed r = b))) ∧
    (∀ item s, Get item "id" = Some (VStr s) → stored_key item = Some s) ∧
    (∀ item, Get item "id" = None → stored_key item = None) ∧
    (∀ h' parsed' (items' : list value),
       stores h' parsed' → snapshot_items parsed' = Some items' →
       Forall convertible items' →
       filter (λ item, catalog_entry item = true) items'
       = filter (λ item, catalog_entry item = true) items →
       ∃ st', loadRoutineState h' = (Normal st', []) ∧ tasks st' = tasks st).
Proof.
  intros Hst Hitems Hc. eexists. split; [by apply load_convertible|].
  cbn [tasks]. split; [|split; [|split; [|split]]].
  - rewrite <- list_fmap_compose. apply list_fmap_ext.
    intros _ task _. apply merge_task_id.
  - intros i task Hi. eexists. split; [by rewrite list_lookup_fmap, Hi|].
    split; [apply merge_task_fields|]. split.
    + intros Hno. rewrite (merge_task_absent _ _ Hno).
      by apply catalog_incomplete with i.
    + intros before item after -> Hitem Hafter.
      rewrite (merge_task_last _ _ _ _ Hitem Hafter). cbn [completed with_completed].
      split; [done|]. by intros b ->.
  - apply stored_key_string_id.
  - intros item Hid. unfold stored_key. by rewrite Hid.
  - intros h' parsed' items' Hst' Hitems' Hc' Hsame.
    eexists. split; [by apply load_convertible|]. cbn [tasks].
    by rewrite <- (merge_catalog_entries items'), Hsame, merge_catalog_entries.
Qed.

(** C4, as the code has it. When the last stored fragment filed under a
    catalog task's id is [frag], the merged task's [completed] is the
    truthiness [Boolean(frag.completed)]: [false] when the field is absent,
    [null], [false], a zero or [NaN], or the empty string; the boolean itself
    when it is one; and [true] for every other value, such as a non-zero
    number, a non-empty string, an array or an object. *)
Theorem C4_completed_truthiness (before : list value) frag after i task :
  defaultTasks !! i = Some task →
  stored_key frag = Some (id task) →
  (∀ x, x ∈ after → stored_key x ≠ Some (id task)) →
  Forall convertible (before ++ frag :: after) →
  ∃ merged r,
    mergeTaskState (VArr (before ++ frag :: after)) = Normal merged ∧
    merged !! i = Some r ∧
    completed r = Boolean (Get frag "completed") ∧
    match Get frag "completed" with
    | None | Some VNull => completed r = false
    | Some (VBool b) => completed r = b
    | Some (VNum (S754_zero _)) | Some (VNum S754_nan) => completed r = false
    | Some (VNum _) => completed r = true
    | Some (VStr s) => completed r = negb (String.eqb s "")
    | Some (VArr _) | Some (VObj _) => completed r = true
    end.
Proof.
  intros Hi Hfrag Hafter Hc. do 2 eexists.
  split; [by apply mergeTaskState_convertible|].
  split; [by rewrite list_lookup_fmap, Hi|].
  rewrite (merge_task_last _ _ _ _ Hfrag Hafter). cbn [completed with_completed].
  split; [done|].
  by destruct (Get frag "completed") as [[|b|[]|s| |]|].
Qed.

End Reconciliation.

(** ** Fallback, invariant and round trip *)

Section LoaderClaims.
Context `{Platform}.

(** C2. When there is no storage environment, when the slot is empty, when
    its text is not JSON, or when it parses to [null], a number or any other
    value that is neither an array nor an object with a "tasks" array, the
    loader returns normally with the default state: the whole catalog, every
    task incomplete, and the check-in flag [false].  A text that fails to
    parse is reported on the console and not raised. *)
Theorem C2_fallback h :
  malformed h →
  ∃ log,
    loadRoutineState h = (Normal createFallbackState, log) ∧
    createFallbackState = mkState defaultTasks false ∧
    Forall (λ task, completed task = false) defaultTasks ∧
    (∀ localStorage stored,
       h = Browser localStorage →
       localStorage !! STORAGE_KEY = Some stored → stored ≠ "" →
       JSON_parse stored = None →
       log = [("Failed to parse routine from localStorage", SyntaxError)]).
Proof.
  intros Hm.
  enough (∃ log,
    loadRoutineState h = (Normal createFallbackState, log) ∧
    (∀ localStorage stored,
       h = Browser localStorage →
       localStorage !! STORAGE_KEY = Some stored → stored ≠ "" →
       JSON_parse stored = None →
       log = [("Failed to parse routine from localStorage", SyntaxError)]))
    as (log & Hload & Hlog).
  { exists log. split; [done|]. split; [done|]. split; [|done].
    by repeat constructor. }
  destruct Hm as [|localStorage Hget|localStorage stored Hget Hparse
                  |localStorage stored parsed Hget Hparse Hshape].
  - by exists [].
  - exists []. unfold loadRoutineState, try_block. rewrite Hget.
    split; [done|]. intros ? ? [= <-] Hget'. congruence.
  - destruct (String.eqb stored "") eqn:Hne.
    + exists []. unfold loadRoutineState, try_block. rewrite Hget, Hne.
      split; [done|]. intros ? ? [= <-] Hget' Hne'.
      rewrite Hget in Hget'. injection Hget' as <-.
      by apply String.eqb_eq in Hne.
    + eexists. unfold loadRoutineState, try_block.
      rewrite Hget, Hne, Hparse. by split.
  - destruct (String.eqb stored "") eqn:Hne.
    + exists []. unfold loadRoutineState, try_block. rewrite Hget, Hne.
      split; [done|]. intros ? ? [= <-] Hget'.
      rewrite Hget in Hget'. injection Hget' as <-. congruence.
    + exists []. split.
      * apply (load_no_snapshot _ parsed); [|done].
        exists localStorage, stored. by apply String.eqb_neq in Hne.
      * intros ? ? [= <-] Hget'.
        rewrite Hget in Hget'. injection Hget' as <-. congruence.
Qed.

Lemma toggleTask_ids task_id (prev : list RoutineTask) :
  id <$> toggleTask task_id prev = id <$> prev.
Proof.
  unfold toggleTask. rewrite <- list_fmap_compose. apply list_fmap_ext.
  intros _ task _. cbn. by destruct (String.eqb (id task) task_id).
Qed.

Lemma live_length h st : live h st → length (tasks st) = 7.
Proof.
  intros Hlive.
  enough (id <$> tasks st = id <$> defaultTasks) as Hids
    by by rewrite <- (length_fmap id), Hids.
  induction Hlive as [st log Hload|st a _ IH].
  - by apply (loadRoutineState_ids h st log).
  - destruct a as [task_id|]; cbn [update tasks]; [|done].
    by rewrite toggleTask_ids.
Qed.

(** C3. On every host the loader returns a state whose task ids are the
    catalog's, in order; [toggleTask] keeps the ids of the list it is given;
    hence every state the page reaches has exactly the catalog's ids. *)
Theorem C3_ids_invariant h :
  (∃ st log, loadRoutineState h = (Normal st, log) ∧
             id <$> tasks st = id <$> defaultTasks) ∧
  (∀ task_id (prev : list RoutineTask),
     id <$> toggleTask task_id prev = id <$> prev) ∧
  (∀ st, live h st → id <$> tasks st = id <$> defaultTasks).
Proof.
  split; [|split].
  - destruct (loadRoutineState_returns h) as (st & log & Hload).
    exists st, log. split; [done|]. by apply (loadRoutineState_ids h st log).
  - apply toggleTask_ids.
  - induction 1 as [st log Hload|st a _ IH].
    + by apply (loadRoutineState_ids h st log).
    + destruct a as [task_id|]; cbn [update tasks]; [|done].
      by rewrite toggleTask_ids.
Qed.

(** C10. A stored text that parses as a bare array loads with the check-in
    flag [false] whatever the array holds; a loaded flag of [true] can only
    come from a stored object with a "tasks" array and a truthy "hydrated". *)
Theorem C10_bare_array_flag h :
  (∀ items, stores h (VArr items) →
     ∃ st log, loadRoutineState h = (Normal st, log) ∧ hydrated st = false) ∧
  (∀ st log, loadRoutineState h = (Normal st, log) → hydrated st = true →
     ∃ props items, stores h (VObj props) ∧
       own_property "tasks" props = Some (VArr items) ∧
       Boolean (own_property "hydrated" props) = true).
Proof.
  split.
  - intros items Hst. pose proof (load_snapshot _ _ items Hst eq_refl) as Hload.
    destruct (mergeTaskState (VArr items)); by do 2 eexists.
  - intros st log Hload Hflag.
    destruct (load_cases h) as [[log' Hfb]|(parsed & items & merged & Hst & Hitems & _ & Hl)].
    + rewrite Hfb in Hload. by injection Hload as <- <-.
    + rewrite Hl in Hload. injection Hload as <- <-. cbn in Hflag.
      destruct parsed as [| | | |items'|props]; try done.
      cbn in Hitems, Hflag. exists props, items. split; [done|]. split; [|done].
      by destruct (own_property "tasks" props) as [[| | | |items'|]|];
        simplify_eq.
Qed.

Lemma task_value_convertible task : convertible (task_value task).
Proof. intros item_id [= <-]. by eexists. Qed.

(** The loader reads a stored payload of a catalog state back as that state. *)
Lemma load_payload h (flags : list bool) (aux : bool) :
  length flags = length defaultTasks →
  stores h (payload_value (mkState (catalog_state flags) aux)) →
  loadRoutineState h = (Normal (mkState (catalog_state flags) aux), []).
Proof.
  intros Hlen Hst.
  rewrite (load_convertible _ _ (task_value <$> catalog_state flags) Hst eq_refl).
  2:{ apply Forall_fmap, Forall_forall. intros task _.
      apply task_value_convertible. }
  do 8 (destruct flags as [|? flags]; try done).
Qed.


End LoaderClaims.

(** ** Toggling *)

(** C6. [toggleTask] keeps the length; at each position the task is the
    input's, with [completed] inverted and every other field kept when its
    id is the given one, and untouched otherwise; when no task has the id
    the list is returned as it was; toggling twice with the same id gives
    back the original list. *)
Theorem C6_toggle (task_id : string) (prev : list RoutineTask) :
  length (toggleTask task_id prev) = length prev ∧
  (∀ i task, prev !! i = Some task →
     toggleTask task_id prev !! i
     = Some (if bool_decide (id task = task_id)
             then mkTask (id task) (title task) (time task) (block task)
                         (details task) (negb (completed task))
             else task)) ∧
  ((∀ task, task ∈ prev → id task ≠ task_id) → toggleTask task_id prev = prev) ∧
  toggleTask task_id (toggleTask task_id prev) = prev.
Proof.
  unfold toggleTask. split; [by rewrite length_fmap|]. split; [|split].
  - intros i task Hi. rewrite list_lookup_fmap, Hi. cbn.
    destruct (String.eqb_spec (id task) task_id) as [Heq|Hne].
    + by rewrite bool_decide_eq_true_2.
    + by rewrite bool_decide_eq_false_2.
  - intros Hno. rewrite <- (list_fmap_id prev) at 2. apply list_fmap_ext.
    intros i task Hi. cbn.
    destruct (String.eqb_spec (id task) task_id) as [Heq|Hne]; [|done].
    exfalso. by apply (Hno task); [apply list_elem_of_lookup_2 with i|].
  - rewrite <- list_fmap_compose. rewrite <- (list_fmap_id prev) at 2.
    apply list_fmap_ext. intros i task _. cbn.
    destruct (String.eqb (id task) task_id) eqn:Heq; cbn; rewrite Heq; [|done].
    destruct task. cbn. by rewrite negb_involutive.
Qed.

(** ** Sorting by time *)

Section SortProperties.
Context {A : Type} (comparefn : A → A → option Z) (key : A → Z).

Lemma insert_sorted_split x (l : list A) :
  (∀ y, y ∈ l → comparefn x y = Some (key x - key y)%Z) →
  ∃ l1 l2,
    l = l1 ++ l2 ∧ insert_sorted comparefn x l = Some (l1 ++ x :: l2) ∧
    Forall (λ y, (key y < key x)%Z) l1 ∧
    (∀ y, head l2 = Some y → (key x ≤ key y)%Z).
Proof.
  induction l as [|y l IH]; intros Hc.
  - exists [], []. by repeat split.
  - cbn. rewrite (Hc y) by left. cbn.
    destruct (Z.leb_spec (key x - key y) 0) as [Hle|Hgt].
    + exists [], (y :: l). repeat split; [done|]. intros y' [= <-]. lia.
    + destruct IH as (l1 & l2 & -> & Hins & Hl1 & Hl2).
      { intros y' Hy'. apply Hc. by right. }
      rewrite Hins. cbn. exists (y :: l1), l2. repeat split; [|done].
      constructor; [lia|done].
Qed.

Lemma filter_none (P : A → Prop) `{∀ x, Decision (P x)} (l : list A) :
  Forall (λ x, ¬ P x) l → filter P l = [].
Proof.
  induction 1 as [|x l Hx _ IH]; [done|]. by rewrite filter_cons_False.
Qed.

Lemma Array_sort_stable (l : list A) :
  (∀ a b, a ∈ l → b ∈ l → comparefn a b = Some (key a - key b)%Z) →
  ∃ sorted,
    Array_sort comparefn l = Some sorted ∧
    sorted ≡ₚ l ∧
    StronglySorted (λ a b, (key a ≤ key b)%Z) sorted ∧
    (∀ m, filter (λ a, key a = m) sorted = filter (λ a, key a = m) l).
Proof.
  induction l as [|x l IH]; intros Hc.
  - exists []. repeat split; [done|constructor].
  - destruct IH as (s & Hs & Hperm & Hsorted & Hstable).
    { intros a b Ha Hb. apply Hc; by right. }
    destruct (insert_sorted_split x s) as (l1 & l2 & -> & Hins & Hl1 & Hl2).
    { intros y Hy. apply Hc; [by left|]. right. by rewrite <- Hperm. }
    exists (l1 ++ x :: l2). cbn. rewrite Hs. cbn. split; [done|].
    apply StronglySorted_app in Hsorted as (Hcross & Hs1 & Hs2).
    split; [|split].
    + by rewrite <- Permutation_middle, Hperm.
    + apply StronglySorted_app. split; [|split; [done|]].
      * intros a b Ha [->|Hb]%elem_of_cons.
        -- rewrite Forall_forall in Hl1. specialize (Hl1 a Ha). cbn in Hl1. lia.
        -- by apply Hcross.
      * apply StronglySorted_cons. split; [|done].
        destruct l2 as [|y l2]; [done|].
        specialize (Hl2 y eq_refl).
        apply StronglySorted_cons in Hs2 as [Hy _].
        constructor; [done|].
        eapply Forall_impl; [exact Hy|]. cbn. intros; lia.
    + intros m. rewrite filter_app, !filter_cons, <- Hstable, filter_app.
      case_decide as Hm; [|done].
      rewrite (filter_none (λ a, key a = m) l1); [done|].
      eapply Forall_impl; [exact Hl1|]. cbn. intros; lia.
Qed.

End SortProperties.

Lemma StronglySorted_impl_elem {A} (R R' : relation A) (l : list A) :
  StronglySorted R l →
  (∀ a b, a ∈ l → b ∈ l → R a b → R' a b) →
  StronglySorted R' l.
Proof.
  induction 1 as [|x l Hl IH Hx]; intros Himpl; constructor.
  - apply IH. intros a b Ha Hb. apply Himpl; by right.
  - rewrite Forall_forall in Hx |- *. intros y Hy.
    apply Himpl; [by left|by right|by apply Hx].
Qed.

Lemma filter_iff_elem {A} (P Q : A → Prop)
    `{∀ x, Decision (P x)} `{∀ x, Decision (Q x)} (l : list A) :
  (∀ x, x ∈ l → P x ↔ Q x) → filter P l = filter Q l.
Proof.
  induction l as [|x l IH]; intros Hiff; [done|].
  rewrite !filter_cons, IH by (intros y Hy; apply Hiff; by right).
  destruct (decide (P x)) as [HP|HP], (decide (Q x)) as [HQ|HQ]; try done.
  - exfalso. apply HQ, Hiff; [by left|done].
  - exfalso. apply HP, Hiff; [by left|done].
Qed.

(** ** Times of day *)

Lemma safe_Some z z' : safe z = Some z' → z' = z ∧ (Z.abs z ≤ MAX_SAFE_INTEGER)%Z.
Proof.
  unfold safe. destruct (Z.leb_spec (Z.abs z) MAX_SAFE_INTEGER); [|done].
  by intros [= <-].
Qed.

Lemma safe_small z : (Z.abs z ≤ MAX_SAFE_INTEGER)%Z → safe z = Some z.
Proof.
  intros Hz. unfold safe. by destruct (Z.leb_spec (Z.abs z) MAX_SAFE_INTEGER); [|lia].
Qed.

Lemma digit_range c d : digit c = Some d → (0 ≤ d ≤ 9)%Z.
Proof.
  unfold digit.
  destruct (Z.leb_spec 48 (Z.of_N (N_of_ascii c)));
    destruct (Z.leb_spec (Z.of_N (N_of_ascii c)) 57); cbn; [|done..].
  intros [= <-]. lia.
Qed.

Lemma digit_not_colon c d : digit c = Some d → Ascii.eqb c ":" = false.
Proof.
  intros Hd. destruct (Ascii.eqb_spec c ":") as [->|]; [|done].
  by vm_compute in Hd.
Qed.

Lemma digits_nonneg s acc z : digits s acc = Some z → (0 ≤ acc)%Z → (0 ≤ z)%Z.
Proof.
  revert acc. induction s as [|c s IH]; intros acc; cbn.
  - intros [= <-]. done.
  - destruct (digit c) as [d|] eqn:Hd; [|done]. cbn.
    intros Hz Hacc. apply (IH _ Hz). apply digit_range in Hd. lia.
Qed.

Lemma ToNumber_nonneg s z : ToNumber s = Some z → (0 ≤ z ≤ MAX_SAFE_INTEGER)%Z.
Proof.
  unfold ToNumber. destruct (digits s 0) as [z0|] eqn:Hd; [|done]. cbn.
  intros [-> Hz]%safe_Some. apply digits_nonneg in Hd; lia.
Qed.

Lemma parseMinutes_range time x :
  parseMinutes time = Some x → (0 ≤ x ≤ MAX_SAFE_INTEGER)%Z.
Proof.
  unfold parseMinutes.
  destruct (ToNumber <$> split ":" time) as [|[h|] [|[m|] rest]] eqn:Hs; try done.
  cbn. destruct (safe (h * 60)) as [p|] eqn:Hp; [|done]. cbn.
  destruct (split ":" time) as [|sh [|sm parts]]; try done.
  injection Hs as Hh Hm _.
  apply ToNumber_nonneg in Hh, Hm. apply safe_Some in Hp as [-> _].
  intros [-> Hx]%safe_Some. lia.
Qed.

Lemma compare_times_defined a b x y :
  parseMinutes (time a) = Some x → parseMinutes (time b) = Some y →
  compare_times a b = Some (x - y)%Z.
Proof.
  intros Ha Hb. unfold compare_times. rewrite Ha, Hb. cbn.
  apply parseMinutes_range in Ha, Hb. apply safe_small. lia.
Qed.

(** C7. When every task's time is one the integer model reads, [upcoming]
    returns the first three of a list that holds exactly the incomplete
    tasks, in ascending order of parsed minutes, tasks of equal minutes
    keeping their order in the input.  A time of two digits, a colon and two
    digits parses to hours * 60 + minutes.  For tasks at 09:00 (incomplete),
    06:30 (incomplete) and 07:15 (completed) the result is the 06:30 task
    followed by the 09:00 task. *)
Theorem C7_upcoming :
  (∀ tasks : list RoutineTask,
     Forall (λ task, is_Some (parseMinutes (time task))) tasks →
     ∃ sorted,
       upcoming tasks = Some (take 3 sorted) ∧
       sorted ≡ₚ filter (λ task, completed task = false) tasks ∧
       StronglySorted (λ a b, ∃ x y, parseMinutes (time a) = Some x ∧
                                     parseMinutes (time b) = Some y ∧
                                     (x ≤ y)%Z) sorted ∧
       (∀ m, filter (λ task, parseMinutes (time task) = Some m) sorted
             = filter (λ task, parseMinutes (time task) = Some m)
                 (filter (λ task, completed task = false) tasks))) ∧
  (∀ h1 h2 m1 m2 dh1 dh2 dm1 dm2,
     digit h1 = Some dh1 → digit h2 = Some dh2 →
     digit m1 = Some dm1 → digit m2 = Some dm2 →
     parseMinutes (String h1 (String h2 (String ":" (String m1 (String m2 "")))))
     = Some ((10 * dh1 + dh2) * 60 + (10 * dm1 + dm2))%Z) ∧
  (∀ a b c,
     time a = "09:00" → completed a = false →
     time b = "06:30" → completed b = false →
     time c = "07:15" → completed c = true →
     upcoming [a; b; c] = Some [b; a]).
Proof.
  split; [|split].
  - intros tasks Htimes.
    set (key := λ task : RoutineTask, default 0%Z (parseMinutes (time task))).
    set (todo := filter (λ task, completed task = false) tasks).
    assert (∀ task, task ∈ todo → parseMinutes (time task) = Some (key task))
      as Hkey.
    { intros task [_ Hin]%list_elem_of_filter.
      rewrite Forall_forall in Htimes. destruct (Htimes _ Hin) as [x Hx].
      unfold key. by rewrite Hx. }
    destruct (Array_sort_stable compare_times key todo)
      as (sorted & Hsort & Hperm & Hsorted & Hstable).
    { intros a b Ha Hb. by apply compare_times_defined; apply Hkey. }
    exists sorted. unfold upcoming. fold todo. rewrite Hsort. cbn.
    split; [done|]. split; [done|]. split.
    + eapply StronglySorted_impl_elem; [exact Hsorted|].
      intros a b Ha Hb Hab. rewrite Hperm in Ha, Hb.
      exists (key a), (key b). by repeat split; try apply Hkey.
    + intros m. trans (filter (λ a, key a = m) sorted).
      * apply filter_iff_elem. intros task Hin. rewrite Hperm in Hin.
        rewrite (Hkey _ Hin). split; congruence.
      * rewrite Hstable. apply filter_iff_elem. intros task Hin.
        rewrite (Hkey _ Hin). split; congruence.
  - intros h1 h2 m1 m2 dh1 dh2 dm1 dm2 Hh1 Hh2 Hm1 Hm2.
    unfold parseMinutes. cbn [split].
    rewrite (digit_not_colon _ _ Hh1), (digit_not_colon _ _ Hh2),
      (digit_not_colon _ _ Hm1), (digit_not_colon _ _ Hm2).
    cbn [Ascii.eqb Bool.eqb split fmap list_fmap]. unfold ToNumber. cbn [digits].
    rewrite Hh1, Hh2, Hm1, Hm2. cbn [mbind option_bind].
    apply digit_range in Hh1, Hh2, Hm1, Hm2.
    rewrite (safe_small (10 * (10 * 0 + dh1) + dh2))
      by (unfold MAX_SAFE_INTEGER; lia).
    rewrite (safe_small (10 * (10 * 0 + dm1) + dm2))
      by (unfold MAX_SAFE_INTEGER; lia).
    cbn [mbind option_bind].
    rewrite safe_small by (unfold MAX_SAFE_INTEGER; lia). cbn [mbind option_bind].
    rewrite safe_small by (unfold MAX_SAFE_INTEGER; lia).
    f_equal; lia.
  - intros [] [] [] ? ? ? ? ? ?. simplify_eq/=. by vm_compute.
Qed.

(** ** Completion rate and trend *)

Lemma percentage_below_40 (c t : nat) :
  t < 40 → c ≤ t →
  percentage c t = number_of_Z (spec_completionRate (Z.of_nat c) (Z.of_nat t)).
Proof.
  intros Ht Hc.
  assert (forallb (λ t, forallb (λ c,
            bool_decide (percentage c t
                         = number_of_Z (spec_completionRate (Z.of_nat c) (Z.of_nat t))))
            (seq 0 (S t))) (seq 0 40) = true) as Hall by (vm_compute; reflexivity).
  rewrite forallb_forall in Hall.
  specialize (Hall t (proj2 (in_seq _ _ _) (conj (Nat.le_0_l _) Ht))).
  rewrite forallb_forall in Hall.
  specialize (Hall c (proj2 (in_seq _ _ _) (conj (Nat.le_0_l _) (le_n_S _ _ Hc)))).
  by apply bool_decide_eq_true in Hall.
Qed.

Lemma totalCompleted_le tasks : totalCompleted tasks ≤ length tasks.
Proof. apply length_filter. Qed.

Lemma totalCompleted_all tasks :
  Forall (λ task, completed task = true) tasks →
  totalCompleted tasks = length tasks.
Proof.
  unfold totalCompleted. induction 1 as [|task tasks Ht _ IH]; [done|].
  rewrite filter_cons_True by done. cbn. by rewrite IH.
Qed.

Lemma digits2_pos_iter_xO (p k : positive) :
  digits2_pos (Pos.iter xO p k) = (digits2_pos p + k)%positive.
Proof.
  induction k as [|k IH] using Pos.peano_ind.
  - cbn. lia.
  - rewrite Pos.iter_succ. cbn [digits2_pos]. rewrite IH. lia.
Qed.

Lemma digits2_pos_lower (p : positive) :
  (2 ^ (Z.pos (digits2_pos p) - 1) ≤ Z.pos p)%Z.
Proof.
  induction p as [p IH|p IH|]; cbn [digits2_pos]; [| |done].
  - rewrite Pos2Z.inj_succ.
    replace (Z.succ (Z.pos (digits2_pos p)) - 1)%Z
      with (Z.succ (Z.pos (digits2_pos p) - 1))%Z by lia.
    rewrite Z.pow_succ_r by lia. lia.
  - rewrite Pos2Z.inj_succ.
    replace (Z.succ (Z.pos (digits2_pos p)) - 1)%Z
      with (Z.succ (Z.pos (digits2_pos p) - 1))%Z by lia.
    rewrite Z.pow_succ_r by lia. lia.
Qed.

(** A positive integer below 2^53 is a finite double. *)
Lemma number_of_Z_finite (p : positive) :
  (Z.pos p < 2 ^ 53)%Z → ∃ m e, number_of_Z (Z.pos p) = S754_finite false m e.
Proof.
  intros Hp.
  assert (Z.pos (digits2_pos p) ≤ 53)%Z as Hd.
  { pose proof (digits2_pos_lower p) as Hlow.
    destruct (Z.le_gt_cases (Z.pos (digits2_pos p)) 53) as [|Hgt]; [done|].
    assert (2 ^ 53 ≤ 2 ^ (Z.pos (digits2_pos p) - 1))%Z
      by (apply Z.pow_le_mono_r; lia).
    lia. }
  unfold number_of_Z, binary_normalize, binary_round, shl_align.
  assert (∀ m e, Z.pos (digits2_pos m) = 53%Z → (-52 ≤ e ≤ 0)%Z →
            binary_round_aux prec emax false (Z.pos m) e loc_Exact
            = S754_finite false m e) as Haux.
  { intros m e Hm He. unfold binary_round_aux, shr_fexp, Zdigits2.
    rewrite Hm. unfold fexp, emin, prec, emax.
    replace (Z.max (53 + e - 53) (3 - 1024 - 53) - e)%Z with 0%Z by lia.
    cbn [shr shr_record_of_loc shr_m loc_of_shr_record round_nearest_even].
    unfold Zdigits2. rewrite Hm.
    replace (Z.max (53 + e - 53) (3 - 1024 - 53) - e)%Z with 0%Z by lia.
    cbn [shr shr_record_of_loc shr_m].
    destruct (Z.leb_spec e (1024 - 53)) as [|]; [done|lia]. }
  unfold fexp, emin, prec, emax in *.
  destruct (Z.max (Z.pos (digits2_pos p) + 0 - 53) (3 - 1024 - 53) - 0)%Z
    as [|d|d] eqn:Hshift.
  - eexists _, _. apply Haux; lia.
  - lia.
  - eexists _, _. apply Haux.
    + rewrite digits2_pos_iter_xO. lia.
    + lia.
Qed.

(** A finite double divided by itself is 1. *)
Lemma SFdiv_diag s (m : positive) e :
  SFdiv prec emax (S754_finite s m e) (S754_finite s m e) = number_of_Z 1.
Proof.
  unfold SFdiv, SFdiv_core_binary, Zdigits2.
  rewrite !Z.sub_diag.
  replace (Z.min (fexp prec emax 0) 0) with (-53)%Z by reflexivity.
  change (0 - -53)%Z with 53%Z. cbv beta iota.
  rewrite Z.shiftl_mul_pow2 by lia.
  assert (Z.pos m ≠ 0)%Z as Hm0 by lia.
  assert (0 < Z.pos m)%Z as Hmpos by lia.
  pose proof (Z.div_eucl_eq (Z.pos m * 2 ^ 53) (Z.pos m) Hm0) as Heq.
  pose proof (Z.mod_pos_bound (Z.pos m * 2 ^ 53) (Z.pos m) Hmpos) as Hbound.
  unfold Z.modulo in Hbound.
  destruct (Z.div_eucl (Z.pos m * 2 ^ 53) (Z.pos m)) as [q r].
  assert (r = Z.pos m * (2 ^ 53 - q))%Z as Hr by lia.
  assert (2 ^ 53 - q = 0)%Z as Hq by nia.
  assert (q = 2 ^ 53 ∧ r = 0)%Z as [-> ->] by lia.
  unfold new_location, new_location_even, new_location_odd. cbn [Z.eqb].
  destruct (Z.even (Z.pos m)); destruct s; reflexivity.
Qed.

Lemma percentage_all (n : nat) :
  n ≠ 0 → (Z.of_nat n ≤ MAX_SAFE_INTEGER)%Z → percentage n n = number_of_Z 100.
Proof.
  intros Hn Hsafe. unfold percentage.
  destruct (Nat.eqb_spec n 0) as [|_]; [done|].
  destruct (Z.of_nat n) as [|p|p] eqn:Hz; [lia| |lia].
  destruct (number_of_Z_finite p) as (m & e & ->).
  { unfold MAX_SAFE_INTEGER in Hsafe. lia. }
  rewrite SFdiv_diag. reflexivity.
Qed.

(** C8. In every state the page reaches, and for every list of fewer than 40
    tasks, the rate is the integer nearest to 100 * completed / total, a half
    going up.  It is 0 for the empty list; 100 for every list that is not
    empty and has every task completed, of any length that is a safe integer
    (an array has fewer than 2^32 elements); and 14 for 1 completed of 7.
    (The code rounds the double [completed / total] times 100; from 40 tasks
    on, which the page never holds, that can fall just below a half that the
    exact quotient reaches.) *)
Theorem C8_completion_rate `{Platform} :
  (∀ h st, live h st →
     completionRate (tasks st)
     = number_of_Z (spec_completionRate (Z.of_nat (totalCompleted (tasks st)))
                                        (Z.of_nat (length (tasks st))))) ∧
  (∀ tasks : list RoutineTask, length tasks < 40 →
     completionRate tasks
     = number_of_Z (spec_completionRate (Z.of_nat (totalCompleted tasks))
                                        (Z.of_nat (length tasks)))) ∧
  completionRate [] = number_of_Z 0 ∧
  (∀ tasks : list RoutineTask,
     tasks ≠ [] → (Z.of_nat (length tasks) ≤ MAX_SAFE_INTEGER)%Z →
     Forall (λ task, completed task = true) tasks →
     completionRate tasks = number_of_Z 100) ∧
  (∀ tasks : list RoutineTask,
     length tasks = 7 → totalCompleted tasks = 1 →
     completionRate tasks = number_of_Z 14).
Proof.
  assert (∀ tasks : list RoutineTask, length tasks < 40 →
     completionRate tasks
     = number_of_Z (spec_completionRate (Z.of_nat (totalCompleted tasks))
                                        (Z.of_nat (length tasks)))) as Hrate.
  { intros tasks Hlen.
    apply (percentage_below_40 _ _ Hlen (totalCompleted_le tasks)). }
  split; [|split; [done|split; [done|split]]].
  - intros h st Hlive. apply Hrate. rewrite (live_length _ _ Hlive). lia.
  - intros tasks Hne Hsafe Hall. unfold completionRate.
    rewrite (totalCompleted_all _ Hall). apply percentage_all; [|done].
    by destruct tasks.
  - intros tasks H7 H1. rewrite Hrate by lia. by rewrite H7, H1.
Qed.

(** C9, as the code has it. The label is one of two fixed strings, "On track"
    exactly when the rate is at least 80 and "Keep going" otherwise; so it is
    for each of the percentages 0 to 100. *)
Theorem C9_trend_label :
  (∀ rate : number,
     (number_ge rate (number_of_Z 80) = true ∧ trend rate = "On track") ∨
     (number_ge rate (number_of_Z 80) = false ∧ trend rate = "Keep going")) ∧
  Forall (λ r : Z,
            trend (number_of_Z r)
            = if bool_decide (80 ≤ r)%Z then "On track" else "Keep going")
         (seqZ 0 101).
Proof.
  split.
  - intros rate. unfold trend.
    destruct (number_ge rate (number_of_Z 80)); [by left|by right].
  - apply Forall_forall. intros r Hr.
    assert (forallb (λ r, bool_decide
              (trend (number_of_Z r)
               = if bool_decide (80 ≤ r)%Z then "On track" else "Keep going"))
              (seqZ 0 101) = true) as Hall by (vm_compute; reflexivity).
    rewrite forallb_forall in Hall.
    eapply bool_decide_eq_true_1, Hall. by apply list_elem_of_In.
Qed.

(** ** The statements on sample inputs *)

Section Samples.
#[local] Existing Instance reference_platform.

Lemma storage_with_stores v :
  Reference.JSON_stringify v ≠ "" →
  Reference.JSON_parse (Reference.JSON_stringify v) = Some v →
  stores (storage_with v) v.
Proof.
  intros Hne Hparse. exists {[ STORAGE_KEY := Reference.JSON_stringify v ]}.
  exists (Reference.JSON_stringify v).
  split; [reflexivity|]. split; [apply lookup_singleton_eq|]. by split.
Defined.

Lemma entry_convertible (item_id flag : value) key :
  ToString item_id = Normal key → convertible (entry item_id flag).
Proof.
  intros Hkey v Hv. injection Hv as <-. by exists key.
Defined.

Lemma null_convertible : convertible VNull.
Proof. intros v Hv. discriminate Hv. Defined.

Lemma sample_items_convertible : Forall convertible sample_items.
Proof.
  repeat first [ apply Forall_nil_2
               | apply Forall_cons_2
               | apply null_convertible
               | eapply entry_convertible; reflexivity ].
Defined.

Lemma C1_reconciliation_witness :
  (stores (storage_with sample_snapshot) sample_snapshot ∧
   snapshot_items sample_snapshot = Some sample_items ∧
   Forall convertible sample_items) ∧
  ∃ st, loadRoutineState (storage_with sample_snapshot) = (Normal st, []) ∧
        id <$> tasks st = id <$> defaultTasks ∧
        completed <$> tasks st !! 0 = Some false ∧
        completed <$> tasks st !! 1 = Some true ∧
        completed <$> tasks st !! 6 = Some true.
Proof.
  assert (stores (storage_with sample_snapshot) sample_snapshot) as Hst.
  { apply storage_with_stores; by vm_compute. }
  split; [split; [exact Hst|split; [reflexivity|exact sample_items_convertible]]|].
  destruct (C1_reconciliation _ _ _ Hst eq_refl sample_items_convertible)
    as (st & Hload & Hids & Htasks & Hkey & _).
  exists st. split; [exact Hload|]. split; [exact Hids|].
  assert (∀ (l : list value) k,
            Forall (λ x, stored_key x ≠ Some k) l →
            ∀ x, x ∈ l → stored_key x ≠ Some k) as Hother.
  { intros l k Hl x Hx. by apply (proj1 (Forall_forall _ _) Hl). }
  split; [|split].
  - destruct (Htasks 0 _ eq_refl) as (r & -> & _ & Habsent & _).
    cbn. f_equal. apply Habsent, Hother.
    repeat first [ apply Forall_nil_2 | apply Forall_cons_2 | discriminate ].
  - destruct (Htasks 1 _ eq_refl) as (r & -> & _ & _ & Hlast).
    cbn. f_equal.
    apply (Hlast [] (entry (VStr "plan") (VBool true))
                 [entry (VStr "siesta") (VBool true);
                  entry (VStr "unwind") (VBool false); VNull;
                  entry (VStr "unwind") (VBool true)] eq_refl);
      [by apply Hkey| |reflexivity].
    apply Hother.
    repeat first [ apply Forall_nil_2 | apply Forall_cons_2 | discriminate ].
  - destruct (Htasks 6 _ eq_refl) as (r & -> & _ & _ & Hlast).
    cbn. f_equal.
    apply (Hlast [entry (VStr "plan") (VBool true);
                  entry (VStr "siesta") (VBool true);
                  entry (VStr "unwind") (VBool false); VNull]
                 (entry (VStr "unwind") (VBool true)) [] eq_refl);
      [by apply Hkey| |reflexivity].
    apply Hother, Forall_nil_2.
Defined.

(** C1 as stated fails at its last clause: a stored entry whose id is not in
    the catalog can change what is loaded.  Next to a completed "plan" entry,
    an entry whose id is an object with an own "toString" property makes
    [String] raise; the loader then discards the whole snapshot, and "plan"
    loads as incomplete. *)
Lemma C1_counterexample :
  Get (entry opaque_id (VBool true)) "id" = Some opaque_id ∧
  catalog_entry (entry opaque_id (VBool true)) = false ∧
  loadRoutineState (storage_with (VArr [entry (VStr "plan") (VBool true)]))
  = (Normal (mkState (catalog_state [false; true; false; false; false; false; false])
                     false), []) ∧
  loadRoutineState
    (storage_with (VArr [entry (VStr "plan") (VBool true);
                         entry opaque_id (VBool true)]))
  = (Normal (mkState (catalog_state [false; false; false; false; false; false; false])
                     false),
     [("Failed to parse routine from localStorage", TypeError)]).
Proof. by vm_compute. Qed.

Example sample_snapshot_loads :
  loadRoutineState (storage_with sample_snapshot)
  = (Normal (mkState (catalog_state [false; true; false; false; false; false; true])
                     true), []).
Proof. by vm_compute. Qed.

(** When an id cannot be converted, the conversion raises a [TypeError]
    inside the [try], and the loader falls back. *)
Example opaque_id_falls_back :
  loadRoutineState
    (storage_with (VArr [entry (VStr "plan") (VBool true);
                         entry opaque_id (VBool true)]))
  = (Normal createFallbackState,
     [("Failed to parse routine from localStorage", TypeError)]).
Proof. by vm_compute. Qed.

Example array_id_is_filed : stored_key (entry array_id (VBool true)) = Some "plan".
Proof. reflexivity. Qed.

Lemma C2_fallback_witness :
  malformed garbled_storage ∧
  loadRoutineState garbled_storage
  = (Normal createFallbackState,
     [("Failed to parse routine from localStorage", SyntaxError)]).
Proof.
  assert (malformed garbled_storage) as Hm.
  { apply malformed_unparsable with "{oops"; by vm_compute. }
  split; [exact Hm|].
  destruct (C2_fallback garbled_storage Hm) as (log & Hload & _ & _ & Hlog).
  rewrite Hload. f_equal.
  apply (Hlog {[ STORAGE_KEY := "{oops" ]} "{oops"); by vm_compute.
Defined.

(** The inputs that the specification lists as malformed. *)
Example malformed_inputs_fall_back :
  Forall (λ stored,
            loadRoutineState (Browser {[ STORAGE_KEY := stored ]})
            = (Normal createFallbackState, []))
    [""; "null"; "42"; "true";
     Reference.JSON_stringify (VStr "text");
     Reference.JSON_stringify (VObj [("tasks", VStr "not-an-array")]);
     Reference.JSON_stringify (VObj [("hydrated", VBool true)])].
Proof. repeat constructor. Qed.

(** On the reference platform the reading-back that the round trip asks of
    the platform holds for every state of the page, and so does the round
    trip. *)
Lemma reference_round_trip (flags : list bool) (aux : bool) :
  length flags = length defaultTasks →
  JSON_stringify (payload_value (mkState (catalog_state flags) aux)) ≠ "" ∧
  JSON_parse (JSON_stringify (payload_value (mkState (catalog_state flags) aux)))
  = Some (payload_value (mkState (catalog_state flags) aux)).
Proof.
  intros Hlen. do 8 (destruct flags as [|? flags]; try done).
  repeat match goal with b : bool |- _ => destruct b end;
    split; by vm_compute.
Qed.

Lemma reference_save_load (flags : list bool) (aux : bool)
    (localStorage : gmap string string) :
  length flags = length defaultTasks →
  loadRoutineState
    (saveState (mkState (catalog_state flags) aux) (Browser localStorage))
  = (Normal (mkState (catalog_state flags) aux), []).
Proof.
  intros Hlen. destruct (reference_round_trip flags aux Hlen) as [Hne Hparse].
  apply load_payload; [done|].
  eexists _, _. split; [reflexivity|]. split; [apply lookup_insert_eq|].
  by split.
Qed.

Lemma C3_ids_invariant_witness :
  live Prerender (update createFallbackState (ToggleTask "plan")) ∧
  id <$> tasks (update createFallbackState (ToggleTask "plan"))
  = id <$> defaultTasks.
Proof.
  assert (live Prerender (update createFallbackState (ToggleTask "plan"))) as Hl.
  { apply live_update, live_initial with []. reflexivity. }
  split; [exact Hl|].
  exact (proj2 (proj2 (C3_ids_invariant Prerender)) _ Hl).
Defined.

Lemma C4_completed_truthiness_witness :
  (defaultTasks !! 1 = Some plan_task ∧
   stored_key yes_fragment = Some (id plan_task) ∧
   Forall convertible ([] ++ yes_fragment :: [])) ∧
  ∃ merged r,
    mergeTaskState (VArr [yes_fragment]) = Normal merged ∧
    merged !! 1 = Some r ∧ completed r = true.
Proof.
  assert (Forall convertible ([] ++ yes_fragment :: [])) as Hc.
  { apply Forall_cons_2; [|apply Forall_nil_2].
    eapply entry_convertible. reflexivity. }
  split; [split; [reflexivity|split; [reflexivity|exact Hc]]|].
  destruct (C4_completed_truthiness [] yes_fragment [] 1 plan_task
              eq_refl eq_refl (λ x Hx, False_ind _ (not_elem_of_nil x Hx)) Hc)
    as (merged & r & Hm & Hr & Hflag & _).
  exists merged, r. by repeat split.
Defined.

(** C4 as stated fails: a stored [completed] of "yes" is not a boolean, and
    the merged task is completed. *)
Lemma C4_counterexample :
  Get yes_fragment "id" = Some (VStr "plan") ∧
  Get yes_fragment "completed" = Some (VStr "yes") ∧
  mergeTaskState (VArr [yes_fragment])
  = Normal (catalog_state [false; true; false; false; false; false; false]) ∧
  completed <$> catalog_state [false; true; false; false; false; false; false] !! 1
  = Some true.
Proof. by vm_compute. Qed.


Lemma C10_bare_array_flag_witness :
  stores (storage_with (VArr [VObj [("id", VStr "plan"); ("hydrated", VBool true)]]))
         (VArr [VObj [("id", VStr "plan"); ("hydrated", VBool true)]]) ∧
  ∃ st log,
    loadRoutineState
      (storage_with (VArr [VObj [("id", VStr "plan"); ("hydrated", VBool true)]]))
    = (Normal st, log) ∧ hydrated st = false.
Proof.
  assert (stores
            (storage_with (VArr [VObj [("id", VStr "plan"); ("hydrated", VBool true)]]))
            (VArr [VObj [("id", VStr "plan"); ("hydrated", VBool true)]])) as Hst.
  { apply storage_with_stores; by vm_compute. }
  split; [exact Hst|].
  exact (proj1 (C10_bare_array_flag _) _ Hst).
Defined.

End Samples.

Lemma C6_toggle_witness :
  defaultTasks !! 1 = Some plan_task ∧
  toggleTask "plan" defaultTasks !! 1 = Some (with_completed plan_task true).
Proof.
  split; [reflexivity|].
  exact (proj1 (proj2 (C6_toggle "plan" defaultTasks)) 1 plan_task eq_refl).
Defined.

Lemma defaultTasks_timed :
  Forall (λ task, is_Some (parseMinutes (time task))) defaultTasks.
Proof.
  repeat first [ apply Forall_nil_2
               | apply Forall_cons_2
               | eexists; vm_compute; reflexivity ].
Defined.

Lemma C7_upcoming_witness :
  Forall (λ task, is_Some (parseMinutes (time task))) defaultTasks ∧
  ∃ sorted,
    upcoming defaultTasks = Some (take 3 sorted) ∧
    sorted ≡ₚ filter (λ task, completed task = false) defaultTasks.
Proof.
  split; [exact defaultTasks_timed|].
  destruct (proj1 C7_upcoming defaultTasks defaultTasks_timed)
    as (sorted & Hup & Hperm & _).
  exists sorted. by split.
Defined.

Section RateSamples.
#[local] Existing Instance reference_platform.

Lemma C8_completion_rate_witness :
  (live Prerender (update createFallbackState (ToggleTask "plan")) ∧
   catalog_state (replicate 7 true) ≠ []) ∧
  completionRate (tasks (update createFallbackState (ToggleTask "plan")))
  = number_of_Z 14 ∧
  completionRate (catalog_state (replicate 7 true)) = number_of_Z 100.
Proof.
  assert (live Prerender (update createFallbackState (ToggleTask "plan"))) as Hl.
  { apply live_update, live_initial with []. reflexivity. }
  split; [split; [exact Hl|discriminate]|].
  destruct C8_completion_rate as (Hlive & _ & _ & Hall & _).
  split.
  - exact (Hlive Prerender _ Hl).
  - apply Hall; [discriminate|by vm_compute|].
    repeat first [ apply Forall_nil_2 | apply Forall_cons_2 | reflexivity ].
Defined.

End RateSamples.

(** Outside the states of the page the code's rounding can differ from the
    exact one: with 23 of 40 tasks completed the nearest integer to
    100 * 23 / 40 = 57.5 is 58, and the double 23 / 40 times 100 is just
    below 57.5, so that the code yields 57. *)
Example rate_of_23_in_40 :
  length forty_tasks = 40 ∧ totalCompleted forty_tasks = 23 ∧
  spec_completionRate 23 40 = 58%Z ∧
  completionRate forty_tasks = number_of_Z 57.
Proof. by vm_compute. Qed.

(** C9 as stated fails: below 80 the label is not "needs attention", and from
    80 on it is not the lower-case "on track". *)
Lemma C9_counterexample :
  trend (number_of_Z 50) = "Keep going" ∧
  trend (number_of_Z 50) ≠ "needs attention" ∧
  trend (number_of_Z 90) = "On track" ∧
  trend (number_of_Z 90) ≠ "on track".
Proof. by vm_compute. Qed.

(** * Further properties of the code *)

(** ** The shape of every merge *)

Section MergeShape.
Context `{Platform}.

Lemma value_nested_ind (P : value → Prop) :
  P VNull → (∀ b, P (VBool b)) → (∀ n, P (VNum n)) → (∀ s, P (VStr s)) →
  (∀ items, Forall P items → P (VArr items)) →
  (∀ props, Forall (λ kv, P kv.2) props → P (VObj props)) →
  ∀ v, P v.
Proof.
  intros Hnull Hbool Hnum Hstr Harr Hobj. fix IH 1.
  intros [| b | n | s | items | props]; [done..| |].
  - apply Harr. induction items as [|x rest IHrest]; constructor; [apply IH|done].
  - apply Hobj. induction props as [|[k x] rest IHrest]; constructor;
      [apply IH|done].
Qed.

Lemma ToString_cons x rest :
  ToString (VArr (x :: rest))
  = s ← match x with VNull => Normal "" | _ => ToString x end;
    match rest with
    | [] => Normal s
    | _ => r ← ToString (VArr rest); Normal (s +:+ "," +:+ r)
    end.
Proof. by destruct rest. Qed.

Lemma ToString_TypeError (v : value) e : ToString v = Throw e → e = TypeError.
Proof.
  revert e. induction v as [| b | n | s | items IH | props _]
    using value_nested_ind; intros e.
  - done.
  - by destruct b.
  - done.
  - done.
  - induction IH as [|x rest Hx _ IHrest]; [done|].
    rewrite ToString_cons.
    destruct (match x with VNull => Normal "" | _ => ToString x end)
      as [s|e'] eqn:Hs.
    + destruct rest as [|y rest]; [done|].
      destruct (ToString (VArr (y :: rest))) as [r|e'] eqn:Hr; [done|].
      intros [= <-]. by apply IHrest.
    + intros [= <-]. destruct x; try done; by apply Hx.
  - cbn. destruct (own_property "toString" props); [by intros [= <-]|done].
Qed.

Lemma stored_entry_TypeError item e :
  stored_entry item = Throw e →
  e = TypeError ∧
  ∃ item_id, Get item "id" = Some item_id ∧ ToString item_id = Throw TypeError.
Proof.
  unfold stored_entry.
  destruct (ToBoolean item && String.eqb (typeof item) "object"); [|done].
  destruct (Get item "id") as [item_id|]; [|done].
  destruct (ToString item_id) as [key|e'] eqn:Hkey; [done|].
  intros [= <-]. pose proof (ToString_TypeError _ _ Hkey) as ->. eauto.
Qed.

Lemma mapM_stored_entry_TypeError (items : list value) e :
  mapM stored_entry items = Throw e →
  e = TypeError ∧
  ∃ item item_id, item ∈ items ∧ Get item "id" = Some item_id ∧
                  ToString item_id = Throw TypeError.
Proof.
  induction items as [|item items IH]; [done|]. cbn.
  destruct (stored_entry item) as [entry|e'] eqn:Hentry; cbn.
  - fold (mapM stored_entry items).
    destruct (mapM stored_entry items) as [entries|e'']; [done|]. cbn.
    intros [= <-]. destruct (IH eq_refl) as (-> & x & x_id & Hin & Hget & Hthrow).
    split; [done|]. exists x, x_id. split; [by right|done].
  - intros [= <-].
    destruct (stored_entry_TypeError _ _ Hentry) as (-> & item_id & Hget & Hthrow).
    split; [done|]. exists item, item_id. split; [by left|done].
Qed.

Lemma fmap_with_completed (f : RoutineTask → RoutineTask) (l : list RoutineTask) :
  (∀ task, f task = with_completed task (completed (f task))) →
  f <$> l = zip_with with_completed l ((λ task, completed (f task)) <$> l).
Proof.
  intros Hf. induction l as [|task l IH]; [done|]. cbn. by rewrite <- IH, <- Hf.
Qed.

Lemma mergeTaskState_catalog_state storedTasks merged :
  mergeTaskState storedTasks = Normal merged →
  ∃ flags, length flags = length defaultTasks ∧ merged = catalog_state flags.
Proof.
  destruct storedTasks as [| | | |items|];
    try (intros [= <-]; by exists (replicate 7 false)).
  unfold mergeTaskState.
  destruct (mapM stored_entry items) as [entries|]; [|done].
  unfold mbind, completion_bind. intros Heq.
  assert (merged = merge_task (Map_new (omap (λ e, e) entries)) <$> defaultTasks)
    as -> by congruence.
  eexists. split; [|apply fmap_with_completed, merge_task_fields].
  by rewrite length_fmap.
Qed.

Lemma mergeTaskState_TypeError storedTasks e :
  mergeTaskState storedTasks = Throw e → e = TypeError.
Proof.
  destruct storedTasks as [| | | |items|]; try done.
  unfold mergeTaskState.
  destruct (mapM stored_entry items) as [entries|e'] eqn:Hentries; [done|].
  intros [= <-]. by destruct (mapM_stored_entry_TypeError _ _ Hentries).
Qed.

(** X1. Whatever value is handed to the reconciler, it either returns the
    catalog with some flags (every title, time, block and details is the
    catalog's) or raises a [TypeError], and it raises only when the value is
    an array holding an item whose id [String] cannot convert. *)
Theorem X1_merge_shape (storedTasks : value) :
  match mergeTaskState storedTasks with
  | Normal merged =>
      ∃ flags, length flags = length defaultTasks ∧ merged = catalog_state flags
  | Throw e =>
      e = TypeError ∧
      ∃ items item item_id,
        storedTasks = VArr items ∧ item ∈ items ∧
        Get item "id" = Some item_id ∧ ToString item_id = Throw TypeError
  end.
Proof.
  destruct (mergeTaskState storedTasks) as [merged|e] eqn:Hm.
  - by apply mergeTaskState_catalog_state with storedTasks.
  - destruct storedTasks as [| | | |items|]; try done.
    unfold mergeTaskState in Hm.
    destruct (mapM stored_entry items) as [entries|e'] eqn:Hentries; [done|].
    injection Hm as ->.
    destruct (mapM_stored_entry_TypeError _ _ Hentries)
      as (-> & item & item_id & Hin & Hget & Hthrow).
    split; [done|]. by exists items, item, item_id.
Qed.

Lemma toggleTask_zip task_id (l : list RoutineTask) (flags : list bool) :
  toggleTask task_id (zip_with with_completed l flags)
  = zip_with with_completed l
      (zip_with (λ task b, if String.eqb (id task) task_id then negb b else b)
                l flags).
Proof.
  revert flags. induction l as [|task l IH]; intros [|b flags]; try done.
  unfold toggleTask in *. cbn [zip_with fmap list_fmap]. rewrite IH.
  f_equal. cbn [id with_completed completed].
  by destruct (String.eqb (id task) task_id).
Qed.

Lemma toggleTask_catalog_state task_id (flags : list bool) :
  toggleTask task_id (catalog_state flags)
  = catalog_state (zip_with (λ task b, if String.eqb (id task) task_id
                                       then negb b else b) defaultTasks flags).
Proof. apply toggleTask_zip. Qed.

Lemma load_catalog_state h st log :
  loadRoutineState h = (Normal st, log) →
  ∃ flags, length flags = length defaultTasks ∧ tasks st = catalog_state flags.
Proof.
  intros Hload.
  destruct (load_cases h)
    as [[log' Hfb]|(parsed & items & merged & _ & _ & Hm & Hl)].
  - rewrite Hfb in Hload. injection Hload as <- <-.
    by exists (replicate 7 false).
  - rewrite Hl in Hload. injection Hload as <- <-.
    by apply mergeTaskState_catalog_state with (VArr items).
Qed.

Lemma live_catalog_state h st :
  live h st →
  ∃ flags, length flags = length defaultTasks ∧ tasks st = catalog_state flags.
Proof.
  induction 1 as [st log Hload|st a _ (flags & Hlen & Hst)].
  - by apply load_catalog_state with h log.
  - destruct a as [task_id|]; cbn [update tasks]; [|by exists flags].
    rewrite Hst, toggleTask_catalog_state. eexists. split; [|done].
    rewrite length_zip_with. lia.
Qed.

(** X2. Every state the page reaches, on any host and whatever the storage
    held, has the catalog as its task list, flags apart: no stored title,
    time, block or details ever reaches the page, and no task is added,
    dropped or reordered. *)
Theorem X2_live_catalog_state h st :
  live h st →
  ∃ flags,
    length flags = length defaultTasks ∧ tasks st = catalog_state flags ∧
    title <$> tasks st = title <$> defaultTasks ∧
    time <$> tasks st = time <$> defaultTasks ∧
    block <$> tasks st = block <$> defaultTasks ∧
    details <$> tasks st = details <$> defaultTasks.
Proof.
  intros (flags & Hlen & Hst)%live_catalog_state. exists flags.
  split; [done|]. split; [done|]. rewrite Hst.
  by do 8 (destruct flags as [|? flags]; try done).
Qed.

End MergeShape.

(** ** More on the loader *)

Section LoaderEdges.
Context `{Platform}.

Lemma mapM_stored_entry_throws (items : list value) item e :
  item ∈ items → stored_entry item = Throw e →
  ∃ e', mapM stored_entry items = Throw e'.
Proof.
  induction items as [|x items IH]; intros Hin Hthrow;
    [by apply elem_of_nil in Hin|].
  cbn. destruct (stored_entry x) as [entry|e'] eqn:Hx; cbn; [|by eexists].
  fold (mapM stored_entry items).
  apply elem_of_cons in Hin as [->|Hin]; [congruence|].
  destruct (IH Hin Hthrow) as [e'' ->]. by eexists.
Qed.

Lemma mergeTaskState_unconvertible (items : list value) item item_id :
  item ∈ items → Get item "id" = Some item_id →
  ToString item_id = Throw TypeError →
  mergeTaskState (VArr items) = Throw TypeError.
Proof.
  intros Hin Hget Hthrow.
  assert (stored_entry item = Throw TypeError) as Hentry.
  { unfold stored_entry. destruct (Get_Some_object _ _ _ Hget) as [-> ->].
    cbn. by rewrite Hget, Hthrow. }
  destruct (mapM_stored_entry_throws _ _ _ Hin Hentry) as [e He].
  unfold mergeTaskState. rewrite He. cbn.
  by destruct (mapM_stored_entry_TypeError _ _ He) as [-> _].
Qed.

(** X3. One stored entry whose id [String] cannot convert (an object with
    an own "toString" property, or an array holding one) discards the whole
    snapshot: the loader returns the default state, so the other entries'
    flags and the stored check-in flag are lost, and it logs the
    [TypeError]. *)
Theorem X3_unconvertible_id_resets h parsed (items : list value) item item_id :
  stores h parsed → snapshot_items parsed = Some items →
  item ∈ items → Get item "id" = Some item_id →
  ToString item_id = Throw TypeError →
  loadRoutineState h
  = (Normal (mkState defaultTasks false),
     [("Failed to parse routine from localStorage", TypeError)]).
Proof.
  intros Hst Hitems Hin Hget Hthrow.
  rewrite (load_snapshot _ _ _ Hst Hitems).
  by rewrite (mergeTaskState_unconvertible _ _ _ Hin Hget Hthrow).
Qed.

(** X4. The loader always returns a state and writes to the console at
    most once.  It logs in three cases only, and returns the default state
    in each: reading the storage threw (the error thrown is what is logged);
    [JSON.parse] rejected a stored text that is not empty ([SyntaxError]); or
    the text held a snapshot in which an id could not be converted
    ([TypeError]).  An empty stored text is never parsed and logs nothing. *)
Theorem X4_logged_errors h :
  ∃ st log,
    loadRoutineState h = (Normal st, log) ∧
    (log = [] ∨
     (st = createFallbackState ∧
      ∃ e,
        log = [("Failed to parse routine from localStorage", e)] ∧
        (h = Blocked e ∨
         ∃ localStorage stored,
           h = Browser localStorage ∧
           localStorage !! STORAGE_KEY = Some stored ∧ stored ≠ "" ∧
           ((e = SyntaxError ∧ JSON_parse stored = None) ∨
            (e = TypeError ∧
             ∃ parsed items,
               JSON_parse stored = Some parsed ∧
               snapshot_items parsed = Some items ∧
               mergeTaskState (VArr items) = Throw TypeError))))).
Proof.
  destruct h as [|localStorage|error];
    [by exists createFallbackState, []; split; [|left]| |].
  2:{ exists createFallbackState. eexists. split; [reflexivity|].
      right. split; [done|]. exists error. split; [done|by left]. }
  destruct (localStorage !! STORAGE_KEY) as [stored|] eqn:Hget.
  2:{ exists createFallbackState, []. unfold loadRoutineState, try_block.
      rewrite Hget. by split; [|left]. }
  destruct (String.eqb_spec stored "") as [->|Hne].
  { exists createFallbackState, []. unfold loadRoutineState, try_block.
    rewrite Hget. by split; [|left]. }
  destruct (JSON_parse stored) as [parsed|] eqn:Hparse.
  2:{ exists createFallbackState. eexists. split.
      - unfold loadRoutineState, try_block. rewrite Hget, Hparse.
        apply String.eqb_neq in Hne as ->. reflexivity.
      - right. split; [done|]. exists SyntaxError. split; [done|]. right.
        exists localStorage, stored. repeat split; try done. by left. }
  assert (stores (Browser localStorage) parsed) as Hst
    by by exists localStorage, stored.
  destruct (snapshot_items parsed) as [items|] eqn:Hitems.
  - pose proof (load_snapshot _ _ _ Hst Hitems) as Hload.
    destruct (mergeTaskState (VArr items)) as [merged|e] eqn:Hm.
    + eexists _, _. split; [exact Hload|by left].
    + pose proof (mergeTaskState_TypeError (VArr items) e Hm) as ->.
      eexists _, _. split; [exact Hload|]. right. split; [done|].
      exists TypeError. split; [done|]. right.
      exists localStorage, stored. repeat split; try done.
      right. split; [done|]. by exists parsed, items.
  - eexists _, _. split; [by apply (load_no_snapshot _ parsed)|by left].
Qed.

End LoaderEdges.

(** ** The check-in flag, idempotence and stored order *)

Section MergeLaws.
Context `{Platform}.

(** X5. From a snapshot in the object form in which [String] converts the
    id of every entry, the check-in flag is recovered as the truthiness of
    the stored "hydrated": [false] when it is absent, [null], [false], a
    zero, [NaN] or the empty string, and [true] for anything else, a
    non-empty string such as "false" included.  (When an id does not
    convert, the snapshot is discarded and the flag is [false].) *)
Theorem X5_hydrated_truthiness h props (items : list value) :
  stores h (VObj props) → own_property "tasks" props = Some (VArr items) →
  Forall convertible items →
  ∃ st,
    loadRoutineState h = (Normal st, []) ∧
    hydrated st = Boolean (own_property "hydrated" props) ∧
    match own_property "hydrated" props with
    | None | Some VNull => hydrated st = false
    | Some (VBool b) => hydrated st = b
    | Some (VNum (S754_zero _)) | Some (VNum S754_nan) => hydrated st = false
    | Some (VNum _) => hydrated st = true
    | Some (VStr s) => hydrated st = negb (String.eqb s "")
    | Some (VArr _) | Some (VObj _) => hydrated st = true
    end.
Proof.
  intros Hst Htasks Hc. eexists. split.
  - apply (load_convertible _ _ items Hst); [|done]. cbn. by rewrite Htasks.
  - cbn. split; [done|].
    by destruct (own_property "hydrated" props) as [[|b|[]|s| |]|].
Qed.

Lemma merge_payload (flags : list bool) :
  length flags = length defaultTasks →
  mergeTaskState (VArr (task_value <$> catalog_state flags))
  = Normal (catalog_state flags).
Proof.
  intros Hlen. rewrite mergeTaskState_convertible.
  2:{ apply Forall_fmap, Forall_forall. intros task _.
      apply task_value_convertible. }
  do 8 (destruct flags as [|? flags]; try done).
Qed.

(** X6. Reconciling is idempotent: handing the reconciler its own result,
    as the writer would store it, gives that result again. *)
Theorem X6_merge_idempotent (storedTasks : value) :
  match mergeTaskState storedTasks with
  | Normal merged => mergeTaskState (VArr (task_value <$> merged)) = Normal merged
  | Throw _ => True
  end.
Proof.
  destruct (mergeTaskState storedTasks) as [merged|] eqn:Hm; [|done].
  destruct (mergeTaskState_catalog_state _ _ Hm) as (flags & Hlen & ->).
  by apply merge_payload.
Qed.

Lemma Map_new_list_to_map (entries : list (string * value)) :
  NoDup (entries.*1) → Map_new entries = list_to_map entries.
Proof.
  induction entries as [|[k v] entries IH] using rev_ind; [done|].
  rewrite fmap_app, NoDup_app. intros (Hnd & Hfresh & _).
  rewrite Map_new_snoc, list_to_map_snoc, IH; [done..|].
  intros Hk. apply (Hfresh _ Hk). cbn. by left.
Qed.

Lemma entry_of_keys (items : list value) :
  (omap entry_of items).*1 = omap stored_key items.
Proof.
  induction items as [|item items IH]; [done|]. cbn.
  unfold entry_of at 1. destruct (stored_key item); cbn; by rewrite IH.
Qed.

(** X7. When the stored entries are filed under distinct ids, their order in
    storage is irrelevant: every rearrangement of the stored array merges to
    the same task list. *)
Theorem X7_stored_order_irrelevant (items items' : list value) :
  NoDup (omap stored_key items) → items ≡ₚ items' →
  Forall convertible items →
  mergeTaskState (VArr items') = mergeTaskState (VArr items).
Proof.
  intros Hnd Hperm Hc.
  rewrite !mergeTaskState_convertible; [|done|by rewrite <- Hperm].
  assert (NoDup ((omap entry_of items).*1)) as Hnd1 by by rewrite entry_of_keys.
  assert (omap entry_of items ≡ₚ omap entry_of items') as Hperm1
    by by rewrite Hperm.
  rewrite !Map_new_list_to_map; [|done|by rewrite <- Hperm1].
  by rewrite (list_to_map_proper _ _ Hnd1 Hperm1).
Qed.

End MergeLaws.

(** ** Sessions *)

Section Sessions.
Context `{Platform}.

Lemma saveState_saveState st1 st2 h :
  saveState st2 (saveState st1 h) = saveState st2 h.
Proof.
  destruct h as [|localStorage|error]; [done| |done].
  cbn. by rewrite insert_insert_eq.
Qed.

Lemma effect_returns room st h h' :
  effect room st h = Normal h' → h' = saveState st h ∧ ∀ e, h ≠ Blocked e.
Proof.
  destruct h as [|localStorage|error]; cbn; [by intros [= <-]| |done].
  unfold setItem. destruct (room _ _ _); [|done]. by intros [= <-].
Qed.

Lemma effect_throws room st h e :
  effect room st h = Throw e →
  h = Blocked e ∨
  (e = DOMException "QuotaExceededError" ∧
   ∃ localStorage,
     h = Browser localStorage ∧
     room localStorage STORAGE_KEY (JSON_stringify (payload_value st)) = false).
Proof.
  destruct h as [|localStorage|error]; cbn; [done| |by intros [= <-]; left].
  unfold setItem.
  destruct (room _ _ _) eqn:Hroom; [done|]. intros [= <-]. right. eauto.
Qed.

Lemma effect_unlimited room st h :
  (∀ localStorage v, room localStorage STORAGE_KEY v = true) →
  (∀ e, h ≠ Blocked e) → effect room st h = Normal (saveState st h).
Proof.
  intros Hroom Hh. destruct h as [|localStorage|error]; cbn; [done| |].
  - unfold setItem. by rewrite Hroom.
  - by destruct (Hh error).
Qed.

Lemma saveState_Blocked st h e : saveState st h = Blocked e → h = Blocked e.
Proof. by destruct h. Qed.

Lemma saveState_Browser st h localStorage :
  saveState st h = Browser localStorage → ∃ stored, h = Browser stored.
Proof. destruct h; [done|by eexists|done]. Qed.

Lemma clicks_outcome room h (p : page) (actions : list action) :
  live h (page_state p) → page_host p = saveState (page_state p) h →
  match clicks room p actions with
  | Normal p' =>
      live h (page_state p') ∧
      page_state p' = foldl update (page_state p) actions ∧
      page_host p' = saveState (page_state p') h
  | Throw e =>
      h = Blocked e ∨
      (e = DOMException "QuotaExceededError" ∧
       ∃ stored localStorage st,
         h = Browser stored ∧ live h st ∧
         room localStorage STORAGE_KEY (JSON_stringify (payload_value st)) = false)
  end.
Proof.
  revert p. induction actions as [|a actions IH]; intros p Hlive Hhost; [done|].
  cbn [clicks]. unfold dispatch.
  destruct (effect room (update (page_state p) a) (page_host p))
    as [h'|e] eqn:Heffect; cbn [mbind completion_bind].
  - apply effect_returns in Heffect as [-> _].
    rewrite Hhost, saveState_saveState.
    specialize (IH (mkPage (saveState (update (page_state p) a) h)
                           (update (page_state p) a))
                   (live_update _ _ _ Hlive) eq_refl).
    by destruct (clicks room _ actions).
  - apply effect_throws in Heffect
      as [Hblocked|(-> & localStorage & Hbrowser & Hroom)].
    + left. rewrite Hhost in Hblocked. by apply saveState_Blocked in Hblocked.
    + right. split; [done|]. rewrite Hhost in Hbrowser.
      apply saveState_Browser in Hbrowser as [stored ->].
      exists stored, localStorage, (update (page_state p) a).
      split; [done|]. split; [by apply live_update|done].
Qed.

Lemma clicks_unlimited room (p : page) (actions : list action) :
  (∀ localStorage v, room localStorage STORAGE_KEY v = true) →
  (∀ e, page_host p ≠ Blocked e) → ∃ p', clicks room p actions = Normal p'.
Proof.
  intros Hroom. revert p.
  induction actions as [|a actions IH]; intros p Hp; [by eexists|].
  cbn [clicks]. unfold dispatch. rewrite (effect_unlimited _ _ _ Hroom Hp).
  cbn [mbind completion_bind]. apply IH. cbn.
  intros e He. by apply saveState_Blocked, Hp in He.
Qed.

(** X8. A session of the page is mounting followed by any clicks, the effect
    saving after each.  It can fail through the storage only, which the
    effect does not guard: where reading the storage throws, the loader
    catches the error but the first effect lets it out, and the page goes
    down on mounting; in a browser the page goes down with the
    "QuotaExceededError" of a write that the storage refused, the write of
    one of the page's states.  With a storage that takes every write the
    session completes.  A session that completes ends in the loaded state
    with the clicks applied; on the server nothing was written; in a browser
    every other key of the storage is as it was, the slot holds the text of
    the last state, and loading from the storage left behind returns
    exactly the state the session ended in, provided the platform reads that
    state's text back. *)
Theorem X8_session_persistence (room : quota) h (actions : list action) :
  match session room h actions with
  | Normal p =>
      live h (page_state p) ∧
      (∃ st0 log, loadRoutineState h = (Normal st0, log) ∧
                  page_state p = foldl update st0 actions) ∧
      match h with
      | Prerender => page_host p = Prerender
      | Browser localStorage =>
          ∃ localStorage',
            page_host p = Browser localStorage' ∧
            (∀ k, k ≠ STORAGE_KEY → localStorage' !! k = localStorage !! k) ∧
            localStorage' !! STORAGE_KEY
            = Some (JSON_stringify (payload_value (page_state p))) ∧
            (reads_back (page_state p) →
               loadRoutineState (page_host p) = (Normal (page_state p), []))
      | Blocked _ => False
      end
  | Throw e =>
      h = Blocked e ∨
      (e = DOMException "QuotaExceededError" ∧
       ∃ stored localStorage st,
         h = Browser stored ∧ live h st ∧
         room localStorage STORAGE_KEY (JSON_stringify (payload_value st)) = false)
  end ∧
  ((∀ localStorage v, room localStorage STORAGE_KEY v = true) →
   (∀ e, h ≠ Blocked e) → ∃ p, session room h actions = Normal p) ∧
  (∀ e, h = Blocked e → session room h actions = Throw e).
Proof.
  destruct (loadRoutineState_returns h) as (st0 & log & Hload).
  pose proof (live_initial _ _ _ Hload) as Hlive0.
  unfold session, mount. rewrite Hload. cbn [fst mbind completion_bind].
  split; [|split].
  - destruct (effect room st0 h) as [h'|e] eqn:Heffect;
      cbn [mbind completion_bind].
    2:{ apply effect_throws in Heffect
          as [Hblocked|(-> & localStorage & -> & Hroom)]; [by left|].
        right. split; [done|]. by exists localStorage, localStorage, st0. }
    apply effect_returns in Heffect as [-> Hh].
    pose proof (clicks_outcome room h (mkPage (saveState st0 h) st0) actions
                  Hlive0 eq_refl) as Hclicks.
    destruct (clicks room (mkPage (saveState st0 h) st0) actions) as [p|e];
      [|done].
    cbn [page_state] in Hclicks. destruct Hclicks as (Hlive & Hstate & Hhost).
    split; [done|]. split; [by exists st0, log|].
    destruct h as [|localStorage|error]; [done| |by destruct (Hh error)].
    rewrite Hhost. eexists. split; [reflexivity|].
    split; [by intros k Hk; rewrite lookup_insert_ne|].
    split; [by rewrite lookup_insert_eq|].
    intros [Hne Hparse].
    destruct (live_catalog_state _ _ Hlive) as (flags & Hlen & Hflags).
    destruct (page_state p) as [final_tasks aux].
    cbn in Hflags. subst final_tasks.
    apply load_payload; [done|].
    eexists _, _. split; [reflexivity|]. split; [apply lookup_insert_eq|].
    by split.
  - intros Hroom Hh. rewrite (effect_unlimited _ _ _ Hroom Hh).
    cbn [mbind completion_bind]. apply clicks_unlimited; [done|]. cbn.
    intros e He. by apply saveState_Blocked, Hh in He.
  - by intros e ->.
Qed.

End Sessions.

(** ** Toggling within the catalog, and the order of clicks *)

(** X9. On a state of the page, toggling the task of a catalog id changes
    the flag at that task's position and nothing else, and moves the number
    of completed tasks by exactly one. *)
Theorem X9_toggle_one_flag (i : nat) task (flags : list bool) (b : bool) :
  defaultTasks !! i = Some task → flags !! i = Some b →
  length flags = length defaultTasks →
  toggleTask (id task) (catalog_state flags) = catalog_state (<[i := negb b]> flags) ∧
  totalCompleted (toggleTask (id task) (catalog_state flags)) + (if b then 1 else 0)
  = totalCompleted (catalog_state flags) + (if b then 0 else 1).
Proof.
  intros Hi Hb Hlen. do 8 (destruct flags as [|? flags]; try done).
  do 7 (destruct i as [|i]; [injection Hi as <-; injection Hb as ->;
    split; [reflexivity|];
    repeat match goal with x : bool |- _ => destruct x end; reflexivity|]).
  done.
Qed.

Lemma toggleTask_comm a b (l : list RoutineTask) :
  toggleTask a (toggleTask b l) = toggleTask b (toggleTask a l).
Proof.
  unfold toggleTask. rewrite <- !list_fmap_compose. apply list_fmap_ext.
  intros _ task _. cbn.
  destruct (String.eqb (id task) a) eqn:Ha, (String.eqb (id task) b) eqn:Hb;
    cbn; by rewrite ?Ha, ?Hb.
Qed.

Lemma update_comm st a1 a2 :
  update (update st a1) a2 = update (update st a2) a1.
Proof.
  destruct a1 as [x|], a2 as [y|]; cbn [update tasks hydrated]; try done.
  by rewrite toggleTask_comm.
Qed.

(** X10. The state after a series of clicks does not depend on the order of
    the clicks: any rearrangement of the same clicks ends in the same
    state. *)
Theorem X10_click_order_irrelevant st (actions actions' : list action) :
  actions ≡ₚ actions' → foldl update st actions = foldl update st actions'.
Proof.
  intros Hperm. revert st.
  induction Hperm as [|a l l' _ IH|a1 a2 l|l1 l2 l3 _ IH1 _ IH2]; intros st.
  - done.
  - cbn. apply IH.
  - cbn. by rewrite update_comm.
  - by rewrite IH1.
Qed.

(** ** Sections by block *)

Lemma timed_Array_sort (l : list RoutineTask) :
  Forall (λ task, is_Some (parseMinutes (time task))) l →
  ∃ sorted,
    Array_sort compare_times l = Some sorted ∧
    sorted ≡ₚ l ∧
    StronglySorted (λ a b, ∃ x y, parseMinutes (time a) = Some x ∧
                                  parseMinutes (time b) = Some y ∧
                                  (x ≤ y)%Z) sorted ∧
    (∀ m, filter (λ task, parseMinutes (time task) = Some m) sorted
          = filter (λ task, parseMinutes (time task) = Some m) l).
Proof.
  intros Htimes.
  set (key := λ task : RoutineTask, default 0%Z (parseMinutes (time task))).
  assert (∀ task, task ∈ l → parseMinutes (time task) = Some (key task)) as Hkey.
  { intros task Hin. rewrite Forall_forall in Htimes.
    destruct (Htimes _ Hin) as [x Hx]. unfold key. by rewrite Hx. }
  destruct (Array_sort_stable compare_times key l)
    as (sorted & Hsort & Hperm & Hsorted & Hstable).
  { intros a b Ha Hb. by apply compare_times_defined; apply Hkey. }
  exists sorted. split; [done|]. split; [done|]. split.
  - eapply StronglySorted_impl_elem; [exact Hsorted|].
    intros a b Ha Hb Hab. rewrite Hperm in Ha, Hb.
    exists (key a), (key b). by repeat split; try apply Hkey.
  - intros m. trans (filter (λ a, key a = m) sorted).
    + apply filter_iff_elem. intros task Hin. rewrite Hperm in Hin.
      rewrite (Hkey _ Hin). split; congruence.
    + rewrite Hstable. apply filter_iff_elem. intros task Hin.
      rewrite (Hkey _ Hin). split; congruence.
Qed.

Lemma Forall_timed_filter (P : RoutineTask → Prop) `{∀ x, Decision (P x)}
    (l : list RoutineTask) :
  Forall (λ task, is_Some (parseMinutes (time task))) l →
  Forall (λ task, is_Some (parseMinutes (time task))) (filter P l).
Proof.
  rewrite !Forall_forall. intros Hl task [_ Hin]%list_elem_of_filter. by apply Hl.
Qed.

Lemma cons_app {A} (x : A) (l k : list A) : (x :: l) ++ k = x :: (l ++ k).
Proof. done. Qed.

Lemma block_partition (l : list RoutineTask) :
  filter (λ task, block task = Morning) l
  ++ filter (λ task, block task = Midday) l
  ++ filter (λ task, block task = Afternoon) l
  ++ filter (λ task, block task = Evening) l ≡ₚ l.
Proof.
  induction l as [|task l IH]; [done|].
  rewrite !filter_cons.
  destruct (block task) eqn:Hb; repeat case_decide; try done;
    rewrite ?cons_app.
  - by rewrite IH.
  - rewrite <- Permutation_middle. by rewrite IH.
  - rewrite (app_assoc _ _ (_ :: _)), <- Permutation_middle, <- app_assoc.
    by rewrite IH.
  - rewrite (app_assoc _ _ (_ :: _)), (app_assoc _ _ (_ :: _)).
    rewrite <- Permutation_middle, <- !app_assoc.
    by rewrite IH.
Qed.

Lemma tasksInBlock_spec (tasks : list RoutineTask) (b : Block) :
  Forall (λ task, is_Some (parseMinutes (time task))) tasks →
  ∃ rows,
    tasksInBlock tasks b = Some rows ∧
    rows ≡ₚ filter (λ task, block task = b) tasks ∧
    StronglySorted (λ a b, ∃ x y, parseMinutes (time a) = Some x ∧
                                  parseMinutes (time b) = Some y ∧
                                  (x ≤ y)%Z) rows ∧
    (∀ m, filter (λ task, parseMinutes (time task) = Some m) rows
          = filter (λ task, parseMinutes (time task) = Some m)
              (filter (λ task, block task = b) tasks)).
Proof.
  intros Htimes. apply timed_Array_sort. by apply Forall_timed_filter.
Qed.

Lemma sections_explicit (tasks : list RoutineTask) :
  Forall (λ task, is_Some (parseMinutes (time task))) tasks →
  ∃ r1 r2 r3 r4,
    tasksInBlock tasks Morning = Some r1 ∧
    tasksInBlock tasks Midday = Some r2 ∧
    tasksInBlock tasks Afternoon = Some r3 ∧
    tasksInBlock tasks Evening = Some r4 ∧
    sections tasks
    = Some [mkSection Morning "Daybreak" (length r1)
                      (if Nat.eqb (length r1) 1 then "" else "s") r1;
            mkSection Midday "Momentum" (length r2)
                      (if Nat.eqb (length r2) 1 then "" else "s") r2;
            mkSection Afternoon "Execution" (length r3)
                      (if Nat.eqb (length r3) 1 then "" else "s") r3;
            mkSection Evening "Reset" (length r4)
                      (if Nat.eqb (length r4) 1 then "" else "s") r4].
Proof.
  intros Htimes.
  destruct (tasksInBlock_spec tasks Morning Htimes) as (r1 & H1 & _).
  destruct (tasksInBlock_spec tasks Midday Htimes) as (r2 & H2 & _).
  destruct (tasksInBlock_spec tasks Afternoon Htimes) as (r3 & H3 & _).
  destruct (tasksInBlock_spec tasks Evening Htimes) as (r4 & H4 & _).
  exists r1, r2, r3, r4. repeat (split; [done|]).
  unfold sections. cbn. by rewrite H1, H2, H3, H4.
Qed.

Lemma plural_singular (n : nat) :
  ((if Nat.eqb n 1 then "" else "s") = "" ↔ n = 1) ∧
  ((if Nat.eqb n 1 then "" else "s") = "s" ↔ n ≠ 1).
Proof. by destruct (Nat.eqb_spec n 1). Qed.

(** X11. When every time is one the integer model reads, the page renders
    exactly four sections, in the fixed order of the blocks and each under
    its block's label, also for a block without tasks; a section holds
    exactly the tasks of its block; taken together the sections show every
    task once; each count is the number of rows, and [task] is written in
    the singular exactly for a count of one. *)
Theorem X11_sections_partition (tasks : list RoutineTask) :
  Forall (λ task, is_Some (parseMinutes (time task))) tasks →
  ∃ secs,
    sections tasks = Some secs ∧
    section_block <$> secs = [Morning; Midday; Afternoon; Evening] ∧
    section_label <$> secs = ["Daybreak"; "Momentum"; "Execution"; "Reset"] ∧
    Forall (λ s,
      section_rows s ≡ₚ filter (λ task, block task = section_block s) tasks ∧
      section_count s = length (section_rows s) ∧
      (section_plural s = "" ↔ section_count s = 1) ∧
      (section_plural s = "s" ↔ section_count s ≠ 1)) secs ∧
    concat (section_rows <$> secs) ≡ₚ tasks ∧
    sum_list (section_count <$> secs) = length tasks.
Proof.
  intros Htimes.
  destruct (sections_explicit tasks Htimes)
    as (r1 & r2 & r3 & r4 & H1 & H2 & H3 & H4 & Hsecs).
  destruct (tasksInBlock_spec tasks Morning Htimes) as (? & E1 & P1 & _).
  destruct (tasksInBlock_spec tasks Midday Htimes) as (? & E2 & P2 & _).
  destruct (tasksInBlock_spec tasks Afternoon Htimes) as (? & E3 & P3 & _).
  destruct (tasksInBlock_spec tasks Evening Htimes) as (? & E4 & P4 & _).
  simplify_eq. eexists. split; [exact Hsecs|].
  split; [done|]. split; [done|]. split; [|split].
  - repeat constructor; cbn [section_rows section_block section_count section_plural];
      try done; apply plural_singular.
  - cbn. rewrite app_nil_r, P1, P2, P3, P4. apply block_partition.
  - cbn. rewrite P1, P2, P3, P4.
    rewrite <- (block_partition tasks) at 5. rewrite !length_app. lia.
Qed.

(** X12. Within each section the rows are in ascending order of parsed
    minutes, and rows of equal minutes keep their order in the task list. *)
Theorem X12_sections_order (tasks : list RoutineTask) :
  Forall (λ task, is_Some (parseMinutes (time task))) tasks →
  ∃ secs,
    sections tasks = Some secs ∧
    Forall (λ s,
      StronglySorted (λ a b, ∃ x y, parseMinutes (time a) = Some x ∧
                                    parseMinutes (time b) = Some y ∧
                                    (x ≤ y)%Z) (section_rows s) ∧
      (∀ m, filter (λ task, parseMinutes (time task) = Some m) (section_rows s)
            = filter (λ task, parseMinutes (time task) = Some m)
                (filter (λ task, block task = section_block s) tasks))) secs.
Proof.
  intros Htimes.
  destruct (sections_explicit tasks Htimes)
    as (r1 & r2 & r3 & r4 & H1 & H2 & H3 & H4 & Hsecs).
  destruct (tasksInBlock_spec tasks Morning Htimes) as (? & E1 & _ & S1 & T1).
  destruct (tasksInBlock_spec tasks Midday Htimes) as (? & E2 & _ & S2 & T2).
  destruct (tasksInBlock_spec tasks Afternoon Htimes) as (? & E3 & _ & S3 & T3).
  destruct (tasksInBlock_spec tasks Evening Htimes) as (? & E4 & _ & S4 & T4).
  simplify_eq. eexists. split; [exact Hsecs|]. by repeat constructor.
Qed.

(** ** Input that is already in order *)

Section SortedInput.
Context {A : Type} (comparefn : A → A → option Z) (key : A → Z).

Lemma Array_sort_sorted (l : list A) :
  (∀ a b, a ∈ l → b ∈ l → comparefn a b = Some (key a - key b)%Z) →
  StronglySorted (λ a b, (key a ≤ key b)%Z) l →
  Array_sort comparefn l = Some l.
Proof.
  intros Hc Hs. induction Hs as [|x l Hs IH Hx]; [done|].
  cbn. rewrite IH by (intros a b Ha Hb; apply Hc; by right). cbn.
  destruct l as [|y l]; [done|]. cbn.
  rewrite Hc by (by left || (right; by left)). cbn.
  apply Forall_cons_1 in Hx as [Hxy _].
  by destruct (Z.leb_spec (key x - key y) 0); [|lia].
Qed.

End SortedInput.

Lemma StronglySorted_filter {A} (R : relation A) (P : A → Prop)
    `{∀ x, Decision (P x)} (l : list A) :
  StronglySorted R l → StronglySorted R (filter P l).
Proof.
  induction 1 as [|x l Hs IH Hx]; [constructor|].
  rewrite filter_cons. case_decide; [|done].
  constructor; [done|].
  rewrite Forall_forall in Hx |- *.
  intros y [_ Hy]%list_elem_of_filter. by apply Hx.
Qed.

Lemma timed_sorted_Array_sort (l : list RoutineTask) :
  Forall (λ task, is_Some (parseMinutes (time task))) l →
  StronglySorted (λ a b, ∃ x y, parseMinutes (time a) = Some x ∧
                                parseMinutes (time b) = Some y ∧
                                (x ≤ y)%Z) l →
  Array_sort compare_times l = Some l.
Proof.
  intros Htimes Hs.
  set (key := λ task : RoutineTask, default 0%Z (parseMinutes (time task))).
  assert (∀ task, task ∈ l → parseMinutes (time task) = Some (key task)) as Hkey.
  { intros task Hin. rewrite Forall_forall in Htimes.
    destruct (Htimes _ Hin) as [x Hx]. unfold key. by rewrite Hx. }
  apply (Array_sort_sorted compare_times key).
  - intros a b Ha Hb. by apply compare_times_defined; apply Hkey.
  - eapply StronglySorted_impl_elem; [exact Hs|].
    intros a b Ha Hb (x & y & Hx & Hy & Hxy).
    rewrite (Hkey _ Ha) in Hx. rewrite (Hkey _ Hb) in Hy. by simplify_eq.
Qed.

(** X13. On a task list that is already in ascending order of time neither
    sort moves anything: the upcoming tasks are the first three incomplete
    tasks as the list has them, and each section lists its block's tasks as
    the list has them. *)
Theorem X13_sorted_input_kept (tasks : list RoutineTask) :
  Forall (λ task, is_Some (parseMinutes (time task))) tasks →
  StronglySorted (λ a b, ∃ x y, parseMinutes (time a) = Some x ∧
                                parseMinutes (time b) = Some y ∧
                                (x ≤ y)%Z) tasks →
  upcoming tasks = Some (take 3 (filter (λ task, completed task = false) tasks)) ∧
  (∀ b, tasksInBlock tasks b = Some (filter (λ task, block task = b) tasks)).
Proof.
  intros Htimes Hs. split.
  - unfold upcoming. rewrite timed_sorted_Array_sort; [done|..].
    + by apply Forall_timed_filter.
    + by apply StronglySorted_filter.
  - intros b. unfold tasksInBlock. apply timed_sorted_Array_sort.
    + by apply Forall_timed_filter.
    + by apply StronglySorted_filter.
Qed.

(** X14. In every state the page reaches, the upcoming tasks are the first
    three incomplete tasks in catalog order, and the four sections, read one
    after the other, list the tasks in catalog order: two in each of the
    first three blocks and one in the last. *)
Theorem X14_live_display_order `{Platform} h st :
  live h st →
  upcoming (tasks st)
  = Some (take 3 (filter (λ task, completed task = false) (tasks st))) ∧
  ∃ secs,
    sections (tasks st) = Some secs ∧
    concat (section_rows <$> secs) = tasks st ∧
    section_count <$> secs = [2; 2; 2; 1].
Proof.
  intros (flags & Hlen & ->)%live_catalog_state.
  do 8 (destruct flags as [|? flags]; try done).
  repeat match goal with b : bool |- _ => destruct b end;
    (split; [by vm_compute|eexists; split; [by vm_compute|by split]]).
Qed.

(** ** The upcoming panel *)

Lemma no_incomplete (tasks : list RoutineTask) :
  length (filter (λ task, completed task = false) tasks) = 0
  ↔ Forall (λ task, completed task = true) tasks.
Proof.
  induction tasks as [|task tasks IH]; [by split; [constructor|]|].
  rewrite filter_cons, Forall_cons. destruct (completed task); cbn.
  - rewrite IH. split; [by split|by intros [_ ?]].
  - split; [done|]. by intros [? _].
Qed.

(** X15. When every time is one the integer model reads, the upcoming tasks
    are incomplete tasks of the list, three of them or all of them when
    fewer are incomplete, and no incomplete task that is left out is earlier
    than one that is shown.  The panel shows its fixed line exactly when
    every task is completed (also for an empty list), and otherwise a row
    with the title and time of each upcoming task. *)
Theorem X15_upcoming_panel (tasks : list RoutineTask) :
  Forall (λ task, is_Some (parseMinutes (time task))) tasks →
  ∃ up,
    upcoming tasks = Some up ∧
    length up = min 3 (length (filter (λ task, completed task = false) tasks)) ∧
    Forall (λ task, completed task = false ∧ task ∈ tasks) up ∧
    (∀ shown hidden x y,
       shown ∈ up → hidden ∈ tasks → completed hidden = false → hidden ∉ up →
       parseMinutes (time shown) = Some x → parseMinutes (time hidden) = Some y →
       (x ≤ y)%Z) ∧
    (upcoming_panel tasks = Some (AllSet "All set for today.")
     ↔ Forall (λ task, completed task = true) tasks) ∧
    (¬ Forall (λ task, completed task = true) tasks →
     upcoming_panel tasks
     = Some (Upcoming ((λ task, (title task, time task)) <$> up))).
Proof.
  intros Htimes.
  destruct (timed_Array_sort _
              (Forall_timed_filter (λ task, completed task = false) _ Htimes))
    as (sorted & Hsort & Hperm & Hsorted & _).
  exists (take 3 sorted).
  assert (upcoming tasks = Some (take 3 sorted)) as Hup
    by (unfold upcoming; by rewrite Hsort).
  assert (length (take 3 sorted)
          = min 3 (length (filter (λ task, completed task = false) tasks)))
    as Hlen by by rewrite length_take, Hperm.
  split; [done|]. split; [done|]. split; [|split; [|split]].
  - apply Forall_forall. intros task Hin.
    assert (task ∈ sorted) as Hs.
    { rewrite <- (take_drop 3 sorted). apply elem_of_app. by left. }
    rewrite Hperm in Hs. by apply list_elem_of_filter in Hs.
  - intros shown hidden x y Hshown Hin Hincomplete Hhidden Hx Hy.
    assert (hidden ∈ sorted) as Hs
      by (rewrite Hperm; by apply list_elem_of_filter).
    rewrite <- (take_drop 3 sorted) in Hs, Hsorted.
    apply elem_of_app in Hs as [Hs|Hs]; [done|].
    apply StronglySorted_app in Hsorted as (Hcross & _).
    destruct (Hcross _ _ Hshown Hs) as (x' & y' & Hx' & Hy' & Hle).
    by simplify_eq.
  - unfold upcoming_panel. rewrite Hup. cbn. rewrite <- no_incomplete.
    destruct (Nat.eqb_spec (length (take 3 sorted)) 0) as [H0|H0].
    + split; [|done]. intros _. lia.
    + split; [done|]. intros Hnone. lia.
  - intros Hsome. unfold upcoming_panel. rewrite Hup. cbn.
    rewrite <- no_incomplete in Hsome.
    destruct (Nat.eqb_spec (length (take 3 sorted)) 0) as [H0|H0]; [lia|done].
Qed.

(** ** The rate and the trend on lists of fewer than 100 tasks *)

Lemma percentage_below_100 (c t : nat) :
  t < 100 → c ≤ t →
  percentage c t = number_of_Z (percent_value c t) ∧
  (0 ≤ percent_value c t ≤ 100)%Z ∧
  (t ≠ 0 → (percent_value c t = 100%Z ↔ c = t) ∧ (percent_value c t = 0%Z ↔ c = 0)) ∧
  (S c ≤ t → (percent_value c t ≤ percent_value (S c) t)%Z) ∧
  (t ≠ 0 → (trend (percentage c t) = "On track" ↔ 159 * t ≤ 200 * c)) .
Proof.
  intros Ht Hc.
  assert (forallb (λ t, forallb (λ c,
            let x := percentage c t in
            let r := default 0%Z (integer_value x) in
            bool_decide (x = number_of_Z r)
            && (0 <=? r)%Z && (r <=? 100)%Z
            && (Nat.eqb t 0
                || (Bool.eqb (r =? 100)%Z (Nat.eqb c t)
                    && Bool.eqb (r =? 0)%Z (Nat.eqb c 0)
                    && Bool.eqb (bool_decide (trend x = "On track"))
                                (159 * t <=? 200 * c)))
            && (Nat.eqb c t
                || (r <=? default 0%Z (integer_value (percentage (S c) t)))%Z))
            (seq 0 (S t))) (seq 0 100) = true) as Hall by (vm_compute; reflexivity).
  rewrite forallb_forall in Hall.
  specialize (Hall t (proj2 (in_seq _ _ _) (conj (Nat.le_0_l _) Ht))).
  rewrite forallb_forall in Hall.
  specialize (Hall c (proj2 (in_seq _ _ _) (conj (Nat.le_0_l _) (le_n_S _ _ Hc)))).
  cbv zeta in Hall. fold (percent_value c t) in Hall.
  fold (percent_value (S c) t) in Hall.
  apply andb_prop in Hall as [Hall Hmono].
  apply andb_prop in Hall as [Hall Hext].
  apply andb_prop in Hall as [Hall Hhi].
  apply andb_prop in Hall as [Heq Hlo].
  apply bool_decide_eq_true in Heq. apply Z.leb_le in Hlo, Hhi.
  split; [done|]. split; [done|]. split; [|split].
  - intros Hne. apply orb_prop in Hext as [H0|Hext];
      [by apply Nat.eqb_eq in H0|].
    apply andb_prop in Hext as [Hext _].
    apply andb_prop in Hext as [H100 H00].
    apply Bool.eqb_prop in H100, H00. split.
    + rewrite <- Z.eqb_eq, H100. apply Nat.eqb_eq.
    + rewrite <- Z.eqb_eq, H00. apply Nat.eqb_eq.
  - intros Hlt. apply orb_prop in Hmono as [Heqb|Hle];
      [apply Nat.eqb_eq in Heqb; lia|by apply Z.leb_le].
  - intros Hne. apply orb_prop in Hext as [H0|Hext];
      [by apply Nat.eqb_eq in H0|].
    apply andb_prop in Hext as [_ Htrend]. apply Bool.eqb_prop in Htrend.
    rewrite <- Nat.leb_le, <- Htrend. apply symmetry, bool_decide_eq_true.
Qed.

Lemma all_completed (tasks : list RoutineTask) :
  totalCompleted tasks = length tasks
  ↔ Forall (λ task, completed task = true) tasks.
Proof.
  split; [|apply totalCompleted_all].
  unfold totalCompleted. induction tasks as [|task tasks IH]; [constructor|].
  destruct (completed task) eqn:Hc.
  - rewrite filter_cons_True by done. cbn. intros [= Hlen].
    constructor; [done|by apply IH].
  - rewrite filter_cons_False by by rewrite Hc. intros Hlen.
    pose proof (length_filter (λ task, completed task = true) tasks) as Hle.
    rewrite Hlen in Hle. cbn in Hle. lia.
Qed.

Lemma none_completed (tasks : list RoutineTask) :
  totalCompleted tasks = 0
  ↔ Forall (λ task, completed task = false) tasks.
Proof.
  unfold totalCompleted. induction tasks as [|task tasks IH];
    [by split; [constructor|]|].
  rewrite Forall_cons. destruct (completed task) eqn:Hc.
  - rewrite filter_cons_True by done. split; [done|]. by intros [? _].
  - rewrite filter_cons_False by by rewrite Hc.
    rewrite IH. split; [by split|by intros [_ ?]].
Qed.

Lemma percent_value_mono (c c' t : nat) :
  t < 100 → c ≤ c' → c' ≤ t → (percent_value c t ≤ percent_value c' t)%Z.
Proof.
  intros Ht Hcc'. induction Hcc' as [|c' Hcc' IH]; intros Hc't; [lia|].
  etrans; [apply IH; lia|].
  by apply (percentage_below_100 c' t Ht); lia.
Qed.

(** X16. For a list of fewer than 100 tasks the rate is a whole number from
    0 to 100; for such a list that is not empty it is 100 only when every
    task is completed and 0 only when none is. *)
Theorem X16_rate_extremes (tasks : list RoutineTask) :
  length tasks < 100 →
  ∃ r : Z,
    completionRate tasks = number_of_Z r ∧ (0 ≤ r ≤ 100)%Z ∧
    (tasks ≠ [] →
       (r = 100%Z ↔ Forall (λ task, completed task = true) tasks) ∧
       (r = 0%Z ↔ Forall (λ task, completed task = false) tasks)).
Proof.
  intros Hlen.
  destruct (percentage_below_100 _ _ Hlen (totalCompleted_le tasks))
    as (Hrate & Hrange & Hext & _).
  exists (percent_value (totalCompleted tasks) (length tasks)).
  split; [done|]. split; [done|]. intros Hne.
  destruct Hext as [H100 H0]; [by destruct tasks|].
  by rewrite H100, H0, all_completed, none_completed.
Qed.

(** X17. Among lists of one length below 100, a list with at least as many
    completed tasks has at least as high a rate: completing a task never
    lowers the percentage shown. *)
Theorem X17_rate_monotone (tasks tasks' : list RoutineTask) :
  length tasks < 100 → length tasks' = length tasks →
  totalCompleted tasks ≤ totalCompleted tasks' →
  ∃ r r' : Z,
    completionRate tasks = number_of_Z r ∧
    completionRate tasks' = number_of_Z r' ∧ (r ≤ r')%Z.
Proof.
  intros Hlen Hsame Hle.
  exists (percent_value (totalCompleted tasks) (length tasks)),
         (percent_value (totalCompleted tasks') (length tasks')).
  split; [by apply percentage_below_100, totalCompleted_le|].
  split; [apply percentage_below_100; [lia|apply totalCompleted_le]|].
  rewrite Hsame. apply percent_value_mono; [done..|].
  rewrite <- Hsame. apply totalCompleted_le.
Qed.

(** X18. For a list of fewer than 100 tasks that is not empty the label is
    "On track" exactly when 200 * completed is at least 159 * total, and
    "Keep going" otherwise; for the page's 7 tasks that is when at least 6
    are completed.  An empty list is labelled "Keep going". *)
Theorem X18_trend_threshold (tasks : list RoutineTask) :
  length tasks < 100 →
  (tasks = [] → trend (completionRate tasks) = "Keep going") ∧
  (tasks ≠ [] →
     trend (completionRate tasks)
     = if bool_decide (159 * length tasks ≤ 200 * totalCompleted tasks)
       then "On track" else "Keep going") ∧
  (length tasks = 7 →
     trend (completionRate tasks)
     = if bool_decide (6 ≤ totalCompleted tasks) then "On track" else "Keep going").
Proof.
  intros Hlen.
  destruct (percentage_below_100 _ _ Hlen (totalCompleted_le tasks))
    as (_ & _ & _ & _ & Htrend).
  fold (completionRate tasks) in Htrend.
  assert (tasks ≠ [] →
          trend (completionRate tasks)
          = if bool_decide (159 * length tasks ≤ 200 * totalCompleted tasks)
            then "On track" else "Keep going") as Hgeneral.
  { intros Hne. specialize (Htrend ltac:(by destruct tasks)).
    case_bool_decide as Hb; [by apply Htrend|].
    unfold trend in *.
    destruct (number_ge (completionRate tasks) (number_of_Z 80)); [|done].
    exfalso. by apply Hb, Htrend. }
  split; [by intros ->|]. split; [done|].
  intros H7. rewrite Hgeneral by (by destruct tasks).
  rewrite H7. repeat case_bool_decide; try done; lia.
Qed.

(** ** What the reconciler reads of a stored entry *)

Section StoredFields.
Context `{Platform}.

Lemma stored_lookup_cases (items : list value) k :
  (Map_new (omap entry_of items) !! k = None ∧
   ∀ item, item ∈ items → stored_key item ≠ Some k)
  ∨ (∃ before item after,
       items = before ++ item :: after ∧ stored_key item = Some k ∧
       (∀ x, x ∈ after → stored_key x ≠ Some k) ∧
       Map_new (omap entry_of items) !! k = Some item).
Proof.
  induction items as [|item items IH] using rev_ind.
  - left. split; [done|]. by intros item Hin%elem_of_nil.
  - destruct (decide (stored_key item = Some k)) as [Hk|Hk].
    + right. exists items, item, []. split; [done|]. split; [done|].
      split; [by intros x Hx%elem_of_nil|].
      by apply stored_lookup_last; [|intros x Hx%elem_of_nil].
    + destruct IH as [[Hnone Hno]|(before & x & after & -> & Hx & Hafter & Hlook)].
      * left. split.
        -- apply stored_lookup_absent.
           intros y [Hy|Hy%list_elem_of_singleton]%elem_of_app;
             [by apply Hno|by subst].
        -- intros y [Hy|Hy%list_elem_of_singleton]%elem_of_app;
             [by apply Hno|by subst].
      * right. exists before, x, (after ++ [item]).
        assert (∀ y, y ∈ after ++ [item] → stored_key y ≠ Some k) as Hafter'.
        { intros y [Hy|Hy%list_elem_of_singleton]%elem_of_app;
            [by apply Hafter|by subst]. }
        split; [by rewrite <- app_assoc|]. split; [done|]. split; [done|].
        rewrite <- app_assoc. cbn. by apply stored_lookup_last.
Qed.

(** X19. Of a stored entry the reconciler reads only the id, as [String]
    converts it, and the truthiness of [completed]: two stored arrays that
    agree on these two, entry by entry, merge to the same task list, whatever
    titles, times or other fields the entries carry. *)
Theorem X19_only_id_and_flag (items items' : list value) :
  (λ item, (stored_key item, Boolean (Get item "completed"))) <$> items
  = (λ item, (stored_key item, Boolean (Get item "completed"))) <$> items' →
  Forall convertible items → Forall convertible items' →
  mergeTaskState (VArr items) = mergeTaskState (VArr items').
Proof.
  intros Hview Hc Hc'. rewrite !mergeTaskState_convertible by done.
  f_equal. apply list_fmap_ext. intros _ task _.
  set (view := λ item, (stored_key item, Boolean (Get item "completed"))) in *.
  destruct (stored_lookup_cases items (id task))
    as [[Hnone Hno]|(before & item & after & -> & Hitem & Hafter & Hlook)].
  - rewrite (merge_task_absent _ _ Hno), merge_task_absent; [done|].
    intros item' Hin' Hkey'.
    assert (view item' ∈ view <$> items) as Hin
      by (rewrite Hview; by apply list_elem_of_fmap_2).
    apply list_elem_of_fmap in Hin as (item & Heq & Hin).
    apply (Hno item Hin). unfold view in Heq. injection Heq as Hk _.
    congruence.
  - rewrite (merge_task_last _ _ _ _ Hitem Hafter).
    symmetry in Hview. rewrite fmap_app, fmap_cons in Hview.
    apply fmap_app_inv in Hview as (before' & rest & Hb & Hrest & ->).
    symmetry in Hrest.
    apply fmap_cons_inv in Hrest as (item' & after' & Hi & Ha & ->).
    unfold view in Hi. injection Hi as Hkey Hflag.
    rewrite merge_task_last; [by rewrite Hflag|congruence|].
    intros x' Hin' Hkey'.
    assert (view x' ∈ view <$> after) as Hin
      by (rewrite Ha; by apply list_elem_of_fmap_2).
    apply list_elem_of_fmap in Hin as (x & Heq & Hin).
    apply (Hafter x Hin). unfold view in Heq. injection Heq as Hk _.
    congruence.
Qed.

End StoredFields.

(** ** The further statements on sample inputs *)

Section MoreSamples.
#[local] Existing Instance reference_platform.

Lemma X2_live_catalog_state_witness :
  live Prerender (update createFallbackState (ToggleTask "plan")) ∧
  ∃ flags,
    length flags = length defaultTasks ∧
    tasks (update createFallbackState (ToggleTask "plan")) = catalog_state flags.
Proof.
  assert (live Prerender (update createFallbackState (ToggleTask "plan"))) as Hl.
  { apply live_update, live_initial with []. reflexivity. }
  split; [exact Hl|].
  destruct (X2_live_catalog_state Prerender _ Hl) as (flags & Hlen & Hst & _).
  exists flags. by split.
Defined.

Lemma X3_unconvertible_id_resets_witness :
  (stores (storage_with (VObj [("tasks", VArr [entry (VStr "plan") (VBool true);
                                               entry opaque_id (VBool true)]);
                               ("hydrated", VBool true)]))
          (VObj [("tasks", VArr [entry (VStr "plan") (VBool true);
                                 entry opaque_id (VBool true)]);
                 ("hydrated", VBool true)]) ∧
   ToString opaque_id = Throw TypeError) ∧
  loadRoutineState
    (storage_with (VObj [("tasks", VArr [entry (VStr "plan") (VBool true);
                                         entry opaque_id (VBool true)]);
                         ("hydrated", VBool true)]))
  = (Normal (mkState defaultTasks false),
     [("Failed to parse routine from localStorage", TypeError)]).
Proof.
  assert (stores (storage_with (VObj [("tasks", VArr [entry (VStr "plan") (VBool true);
                                               entry opaque_id (VBool true)]);
                               ("hydrated", VBool true)]))
          (VObj [("tasks", VArr [entry (VStr "plan") (VBool true);
                                 entry opaque_id (VBool true)]);
                 ("hydrated", VBool true)])) as Hst.
  { apply storage_with_stores; by vm_compute. }
  split; [split; [exact Hst|reflexivity]|].
  apply (X3_unconvertible_id_resets _ _
           [entry (VStr "plan") (VBool true); entry opaque_id (VBool true)]
           (entry opaque_id (VBool true)) opaque_id Hst eq_refl);
    [|reflexivity|reflexivity].
  apply list_elem_of_further, list_elem_of_here.
Defined.

Lemma X5_hydrated_truthiness_witness :
  (stores (storage_with (VObj [("tasks", VArr sample_items);
                               ("hydrated", VStr "false")]))
          (VObj [("tasks", VArr sample_items); ("hydrated", VStr "false")]) ∧
   Forall convertible sample_items) ∧
  ∃ st,
    loadRoutineState (storage_with (VObj [("tasks", VArr sample_items);
                                          ("hydrated", VStr "false")]))
    = (Normal st, []) ∧ hydrated st = true.
Proof.
  assert (stores (storage_with (VObj [("tasks", VArr sample_items);
                               ("hydrated", VStr "false")]))
          (VObj [("tasks", VArr sample_items); ("hydrated", VStr "false")]))
    as Hst.
  { apply storage_with_stores; by vm_compute. }
  split; [split; [exact Hst|exact sample_items_convertible]|].
  destruct (X5_hydrated_truthiness _ _ sample_items Hst eq_refl
              sample_items_convertible) as (st & Hload & Hflag & _).
  exists st. by split.
Defined.

Lemma X7_stored_order_irrelevant_witness :
  (NoDup (omap stored_key [entry (VStr "plan") (VBool true);
                           entry (VStr "unwind") (VBool true)]) ∧
   [entry (VStr "plan") (VBool true); entry (VStr "unwind") (VBool true)]
   ≡ₚ [entry (VStr "unwind") (VBool true); entry (VStr "plan") (VBool true)] ∧
   Forall convertible [entry (VStr "plan") (VBool true);
                       entry (VStr "unwind") (VBool true)]) ∧
  mergeTaskState (VArr [entry (VStr "unwind") (VBool true);
                        entry (VStr "plan") (VBool true)])
  = mergeTaskState (VArr [entry (VStr "plan") (VBool true);
                          entry (VStr "unwind") (VBool true)]).
Proof.
  assert (NoDup (omap stored_key [entry (VStr "plan") (VBool true);
                                  entry (VStr "unwind") (VBool true)])) as Hnd.
  { apply (bool_decide_unpack _). by vm_compute. }
  assert (Forall convertible [entry (VStr "plan") (VBool true);
                              entry (VStr "unwind") (VBool true)]) as Hc.
  { repeat first [ apply Forall_nil_2 | apply Forall_cons_2
                 | eapply entry_convertible; reflexivity ]. }
  split; [split; [exact Hnd|split; [apply perm_swap|exact Hc]]|].
  exact (X7_stored_order_irrelevant _ _ Hnd (perm_swap _ _ _) Hc).
Defined.

Lemma X8_session_persistence_witness :
  ∃ p,
    session unlimited (storage_with sample_snapshot)
            [ToggleTask "plan"; ToggleHydrated; ToggleTask "wrap-up"] = Normal p ∧
    reads_back (page_state p) ∧
    loadRoutineState (page_host p) = (Normal (page_state p), []).
Proof.
  destruct (X8_session_persistence unlimited (storage_with sample_snapshot)
              [ToggleTask "plan"; ToggleHydrated; ToggleTask "wrap-up"])
    as (Houtcome & Hcompletes & _).
  destruct (Hcompletes (λ _ _, eq_refl)) as [p Hsession];
    [intros e He; discriminate He|].
  rewrite Hsession in Houtcome.
  destruct Houtcome as (Hlive & _ & localStorage' & _ & _ & _ & Hreload).
  assert (reads_back (page_state p)) as Hrb.
  { destruct (live_catalog_state _ _ Hlive) as (flags & Hlen & Hflags).
    destruct (page_state p) as [final_tasks aux]. cbn in Hflags. subst.
    exact (reference_round_trip flags aux Hlen). }
  exists p. split; [exact Hsession|]. split; [exact Hrb|exact (Hreload Hrb)].
Defined.

(** A storage without room takes the page down on mounting. *)
Example refused_write_on_mounting :
  session no_room (Browser ∅) [] = Throw (DOMException "QuotaExceededError").
Proof. reflexivity. Qed.

Lemma X14_live_display_order_witness :
  live Prerender (update createFallbackState (ToggleTask "hydrate")) ∧
  upcoming (tasks (update createFallbackState (ToggleTask "hydrate")))
  = Some (take 3 (filter (λ task, completed task = false)
                         (tasks (update createFallbackState (ToggleTask "hydrate"))))).
Proof.
  assert (live Prerender (update createFallbackState (ToggleTask "hydrate"))) as Hl.
  { apply live_update, live_initial with []. reflexivity. }
  split; [exact Hl|].
  exact (proj1 (X14_live_display_order Prerender _ Hl)).
Defined.

Lemma X19_only_id_and_flag_witness :
  ((λ item, (stored_key item, Boolean (Get item "completed")))
     <$> [VObj [("id", VStr "plan"); ("title", VStr "Stale"); ("completed", VNum (number_of_Z 1))]]
   = (λ item, (stored_key item, Boolean (Get item "completed")))
     <$> [entry (VStr "plan") (VBool true)]) ∧
  mergeTaskState (VArr [VObj [("id", VStr "plan"); ("title", VStr "Stale");
                              ("completed", VNum (number_of_Z 1))]])
  = mergeTaskState (VArr [entry (VStr "plan") (VBool true)]).
Proof.
  split; [reflexivity|].
  apply X19_only_id_and_flag; [reflexivity|..].
  - apply Forall_cons_2; [|apply Forall_nil_2].
    intros item_id Hid. injection Hid as <-. by exists "plan".
  - apply Forall_cons_2; [|apply Forall_nil_2].
    eapply entry_convertible. reflexivity.
Defined.

End MoreSamples.

Lemma X9_toggle_one_flag_witness :
  (defaultTasks !! 1 = Some plan_task ∧
   [false; false; true; false; false; false; false] !! 1 = Some false) ∧
  toggleTask "plan" (catalog_state [false; false; true; false; false; false; false])
  = catalog_state [false; true; true; false; false; false; false].
Proof.
  split; [by split|].
  exact (proj1 (X9_toggle_one_flag 1 plan_task
                  [false; false; true; false; false; false; false] false
                  eq_refl eq_refl eq_refl)).
Defined.

Lemma X10_click_order_irrelevant_witness :
  [ToggleTask "plan"; ToggleHydrated] ≡ₚ [ToggleHydrated; ToggleTask "plan"] ∧
  foldl update (mkState defaultTasks false) [ToggleTask "plan"; ToggleHydrated]
  = foldl update (mkState defaultTasks false) [ToggleHydrated; ToggleTask "plan"].
Proof.
  split; [apply perm_swap|].
  exact (X10_click_order_irrelevant _ _ _ (perm_swap _ _ _)).
Defined.

Lemma defaultTasks_sorted :
  StronglySorted (λ a b, ∃ x y, parseMinutes (time a) = Some x ∧
                                parseMinutes (time b) = Some y ∧
                                (x ≤ y)%Z) defaultTasks.
Proof.
  repeat first [ apply SSorted_nil
               | apply SSorted_cons
               | apply Forall_nil_2
               | apply Forall_cons_2
               | (eexists _, _; split; [reflexivity|split; [reflexivity|by vm_compute]]) ].
Defined.

Lemma X11_sections_partition_witness :
  Forall (λ task, is_Some (parseMinutes (time task))) defaultTasks ∧
  ∃ secs,
    sections defaultTasks = Some secs ∧
    concat (section_rows <$> secs) ≡ₚ defaultTasks.
Proof.
  split; [exact defaultTasks_timed|].
  destruct (X11_sections_partition defaultTasks defaultTasks_timed)
    as (secs & Hsecs & _ & _ & _ & Hall & _).
  exists secs. by split.
Defined.

Lemma X12_sections_order_witness :
  Forall (λ task, is_Some (parseMinutes (time task))) defaultTasks ∧
  ∃ secs,
    sections defaultTasks = Some secs ∧
    Forall (λ s,
      StronglySorted (λ a b, ∃ x y, parseMinutes (time a) = Some x ∧
                                    parseMinutes (time b) = Some y ∧
                                    (x ≤ y)%Z) (section_rows s)) secs.
Proof.
  split; [exact defaultTasks_timed|].
  destruct (X12_sections_order defaultTasks defaultTasks_timed)
    as (secs & Hsecs & Hall).
  exists secs. split; [exact Hsecs|].
  eapply Forall_impl; [exact Hall|]. by intros s [Hs _].
Defined.

Lemma X13_sorted_input_kept_witness :
  (Forall (λ task, is_Some (parseMinutes (time task))) defaultTasks ∧
   StronglySorted (λ a b, ∃ x y, parseMinutes (time a) = Some x ∧
                                 parseMinutes (time b) = Some y ∧
                                 (x ≤ y)%Z) defaultTasks) ∧
  upcoming defaultTasks
  = Some (take 3 (filter (λ task, completed task = false) defaultTasks)).
Proof.
  split; [split; [exact defaultTasks_timed|exact defaultTasks_sorted]|].
  exact (proj1 (X13_sorted_input_kept defaultTasks defaultTasks_timed
                  defaultTasks_sorted)).
Defined.

Lemma X15_upcoming_panel_witness :
  Forall (λ task, is_Some (parseMinutes (time task))) defaultTasks ∧
  ∃ up, upcoming defaultTasks = Some up ∧ length up = 3.
Proof.
  split; [exact defaultTasks_timed|].
  destruct (X15_upcoming_panel defaultTasks defaultTasks_timed)
    as (up & Hup & Hlen & _).
  exists up. split; [exact Hup|exact Hlen].
Defined.

Lemma X16_rate_extremes_witness :
  length (toggleTask "plan" defaultTasks) < 100 ∧
  ∃ r : Z,
    completionRate (toggleTask "plan" defaultTasks) = number_of_Z r ∧
    (0 ≤ r ≤ 100)%Z.
Proof.
  assert (length (toggleTask "plan" defaultTasks) < 100) as Hlen
    by (vm_compute; lia).
  split; [exact Hlen|].
  destruct (X16_rate_extremes _ Hlen) as (r & Hrate & Hrange & _).
  exists r. by split.
Defined.

Lemma X17_rate_monotone_witness :
  (length defaultTasks < 100 ∧
   length (toggleTask "plan" defaultTasks) = length defaultTasks ∧
   totalCompleted defaultTasks ≤ totalCompleted (toggleTask "plan" defaultTasks)) ∧
  ∃ r r' : Z,
    completionRate defaultTasks = number_of_Z r ∧
    completionRate (toggleTask "plan" defaultTasks) = number_of_Z r' ∧
    (r ≤ r')%Z.
Proof.
  assert (length defaultTasks < 100) as Hlen by (vm_compute; lia).
  assert (totalCompleted defaultTasks
          ≤ totalCompleted (toggleTask "plan" defaultTasks)) as Hle
    by (vm_compute; lia).
  split; [split; [exact Hlen|split; [reflexivity|exact Hle]]|].
  exact (X17_rate_monotone defaultTasks (toggleTask "plan" defaultTasks)
           Hlen eq_refl Hle).
Defined.

Lemma X18_trend_threshold_witness :
  length defaultTasks < 100 ∧
  trend (completionRate defaultTasks) = "Keep going".
Proof.
  assert (length defaultTasks < 100) as Hlen by (vm_compute; lia).
  split; [exact Hlen|].
  exact (proj2 (proj2 (X18_trend_threshold defaultTasks Hlen)) eq_refl).
Defined.
